(** * BufMgr: the buffer manager of BadgerDB (src/buffer.cpp)

    A shallow embedding of [BufMgr] and of the clock replacement policy it
    implements, together with the properties of the pool that the
    specification states.  Each operation of the class is a computation in
    a small state-and-exception monad over the manager's fields. *)

From Stdlib Require Import PrimFloat.
From Stdlib Require FloatOps SpecFloat Uint63.
From Stdlib Require Import ZArith NArith Lia.
From stdpp Require Import gmap strings list fin_maps.

Local Open Scope string_scope.
Local Open Scope N_scope.

(** ** Data model *)

(** A file is identified by its name ([File::operator==] compares names);
    page numbers and frame numbers are [std::uint32_t]. *)
Abbreviation File := string (only parsing).
Abbreviation PageId := N (only parsing).
Abbreviation FrameId := N (only parsing).

Definition wrap32 (n : N) : N := n mod 2 ^ 32.

(** Modelled from the spec: [Page] is declared outside buffer.cpp; only its
    page number is observed by the manager, the rest is opaque content. *)
Record Page : Type := mkPage { page_number : PageId; contents : string }.

(** Modelled from the spec: [Page::INVALID_NUMBER], the empty page number a
    descriptor is reset to. *)
Definition INVALID_NUMBER : PageId := 0.
Definition Page_default : Page := mkPage INVALID_NUMBER "".

(** Modelled from the spec: the frame descriptor [BufDesc] is declared in
    buffer.h.  [file] is empty ([None]) on a free descriptor; [pinCnt] is a
    signed counter. *)
Record BufDesc : Type := mkBufDesc {
  file : option File;
  pageNo : PageId;
  frameNo : FrameId;
  pinCnt : Z;
  dirty : bool;
  valid : bool;
  refbit : bool
}.

(** Modelled from the spec: [BufDesc::clear] resets every field but the
    frame number to its empty value. *)
Definition clear (d : BufDesc) : BufDesc :=
  {| file := None; pageNo := INVALID_NUMBER; frameNo := frameNo d;
     pinCnt := 0; dirty := false; valid := false; refbit := false |}.

(** Modelled from the spec: [BufDesc::Set] records the identity and makes
    the descriptor valid, pinned once, referenced and clean. *)
Definition Set_ (f : File) (p : PageId) (d : BufDesc) : BufDesc :=
  {| file := Some f; pageNo := p; frameNo := frameNo d;
     pinCnt := 1; dirty := false; valid := true; refbit := true |}.

Definition with_refbit (b : bool) (d : BufDesc) : BufDesc :=
  {| file := file d; pageNo := pageNo d; frameNo := frameNo d;
     pinCnt := pinCnt d; dirty := dirty d; valid := valid d; refbit := b |}.

Definition with_pinCnt (n : Z) (d : BufDesc) : BufDesc :=
  {| file := file d; pageNo := pageNo d; frameNo := frameNo d;
     pinCnt := n; dirty := dirty d; valid := valid d; refbit := refbit d |}.

Definition with_dirty (b : bool) (d : BufDesc) : BufDesc :=
  {| file := file d; pageNo := pageNo d; frameNo := frameNo d;
     pinCnt := pinCnt d; dirty := b; valid := valid d; refbit := refbit d |}.

(** The statistics the manager keeps ([bufStats]). *)
Record BufStats : Type := mkBufStats { accesses : Z; diskreads : Z }.

(** The calls the manager makes on the Page Store ([File]), in the order
    they are made. *)
Inductive StoreCall : Type :=
| ReadPage (f : File) (p : PageId)
| WritePage (f : File) (pg : Page)
| AllocatePage (f : File)
| DeletePage (f : File) (p : PageId).

(** The manager's fields, followed by the two things it acts on outside
    itself: the Page Store (as the history of calls made on it) and the
    diagnostic stream. *)
Record BufMgr : Type := mkBufMgr {
  numBufs : N;
  hashTable : gmap (string * N) N;
  bufDescTable : list BufDesc;
  bufPool : list Page;
  clockHand : FrameId;
  bufStats : BufStats;
  calls : list StoreCall;
  cerr : list string
}.

Inductive Exception : Type :=
| BufferExceededException
| HashNotFoundException (name : string) (p : PageId)
| PageNotPinnedException (name : string) (p : PageId) (frame : FrameId)
| PagePinnedException (msg : string) (p : PageId) (frame : FrameId)
| BadBufferException (frame : FrameId) (dirty_ valid_ refbit_ : bool).

(** How a call ends: it returns, an exception leaves it, its behaviour is
    undefined (a vector indexed out of range, a remainder by zero, a call
    on an empty file handle), or the model's fuel ran out. *)
Inductive Res (A : Type) : Type :=
| Ok (a : A) (s : BufMgr)
| Raise (e : Exception) (s : BufMgr)
| Undef
| Timeout.
Arguments Ok {A} a s.
Arguments Raise {A} e s.
Arguments Undef {A}.
Arguments Timeout {A}.

(** ** The monad *)

Definition M (A : Type) : Type := BufMgr -> Res A.

Definition ret {A} (a : A) : M A := fun s => Ok a s.

Definition bind {A B} (m : M A) (k : A -> M B) : M B := fun s =>
  match m s with
  | Ok a s' => k a s'
  | Raise e s' => Raise e s'
  | Undef => Undef
  | Timeout => Timeout
  end.

Definition throw {A} (e : Exception) : M A := fun s => Raise e s.

(** [try { m } catch (E) { h }], where [handles] selects the exceptions of
    class [E]. *)
Definition try_catch {A} (m : M A) (handles : Exception -> bool) (h : M A) : M A :=
  fun s =>
    match m s with
    | Raise e s' => if handles e then h s' else Raise e s'
    | r => r
    end.

Declare Scope bufmgr_scope.
Delimit Scope bufmgr_scope with bufmgr.
Notation "x <- m ;; k" := (bind m (fun x => k))
  (at level 100, m at next level, right associativity) : bufmgr_scope.
Notation "m ;;; k" := (bind m (fun _ => k))
  (at level 100, right associativity) : bufmgr_scope.
Local Open Scope bufmgr_scope.

Definition is_HashNotFound (e : Exception) : bool :=
  match e with HashNotFoundException _ _ => true | _ => false end.

Definition is_BufferExceeded (e : Exception) : bool :=
  match e with BufferExceededException => true | _ => false end.

(** *** Access to the fields *)

Definition gets {A} (proj : BufMgr -> A) : M A := fun s => Ok (proj s) s.

(** [bufDescTable[i]] read; out of range is undefined. *)
Definition desc_at (i : FrameId) : M BufDesc := fun s =>
  match bufDescTable s !! N.to_nat i with
  | Some d => Ok d s
  | None => Undef
  end.

Definition with_bufDescTable (t : list BufDesc) (s : BufMgr) : BufMgr :=
  {| numBufs := numBufs s; hashTable := hashTable s; bufDescTable := t;
     bufPool := bufPool s; clockHand := clockHand s; bufStats := bufStats s;
     calls := calls s; cerr := cerr s |}.

(** A field of [bufDescTable[i]] written: [upd] is applied to the
    descriptor in place. *)
Definition update_desc (i : FrameId) (upd : BufDesc -> BufDesc) : M unit := fun s =>
  match bufDescTable s !! N.to_nat i with
  | Some d => Ok tt (with_bufDescTable (<[N.to_nat i := upd d]> (bufDescTable s)) s)
  | None => Undef
  end.

(** [bufPool[i]] read and written. *)
Definition pool_at (i : FrameId) : M Page := fun s =>
  match bufPool s !! N.to_nat i with
  | Some pg => Ok pg s
  | None => Undef
  end.

Definition with_bufPool (t : list Page) (s : BufMgr) : BufMgr :=
  {| numBufs := numBufs s; hashTable := hashTable s; bufDescTable := bufDescTable s;
     bufPool := t; clockHand := clockHand s; bufStats := bufStats s;
     calls := calls s; cerr := cerr s |}.

Definition set_pool (i : FrameId) (pg : Page) : M unit := fun s =>
  match bufPool s !! N.to_nat i with
  | Some _ => Ok tt (with_bufPool (<[N.to_nat i := pg]> (bufPool s)) s)
  | None => Undef
  end.

Definition with_clockHand (h : FrameId) (s : BufMgr) : BufMgr :=
  {| numBufs := numBufs s; hashTable := hashTable s; bufDescTable := bufDescTable s;
     bufPool := bufPool s; clockHand := h; bufStats := bufStats s;
     calls := calls s; cerr := cerr s |}.

Definition with_bufStats (b : BufStats) (s : BufMgr) : BufMgr :=
  {| numBufs := numBufs s; hashTable := hashTable s; bufDescTable := bufDescTable s;
     bufPool := bufPool s; clockHand := clockHand s; bufStats := b;
     calls := calls s; cerr := cerr s |}.

Definition with_hashTable (h : gmap (string * N) N) (s : BufMgr) : BufMgr :=
  {| numBufs := numBufs s; hashTable := h; bufDescTable := bufDescTable s;
     bufPool := bufPool s; clockHand := clockHand s; bufStats := bufStats s;
     calls := calls s; cerr := cerr s |}.

Definition with_calls (c : list StoreCall) (s : BufMgr) : BufMgr :=
  {| numBufs := numBufs s; hashTable := hashTable s; bufDescTable := bufDescTable s;
     bufPool := bufPool s; clockHand := clockHand s; bufStats := bufStats s;
     calls := c; cerr := cerr s |}.

Definition with_cerr (c : list string) (s : BufMgr) : BufMgr :=
  {| numBufs := numBufs s; hashTable := hashTable s; bufDescTable := bufDescTable s;
     bufPool := bufPool s; clockHand := clockHand s; bufStats := bufStats s;
     calls := calls s; cerr := c |}.

(** [bufStats.accesses++] and [bufStats.diskreads++]. *)
Definition incr_accesses : M unit := fun s =>
  Ok tt (with_bufStats {| accesses := accesses (bufStats s) + 1;
                          diskreads := diskreads (bufStats s) |} s).

Definition incr_diskreads : M unit := fun s =>
  Ok tt (with_bufStats {| accesses := accesses (bufStats s);
                          diskreads := diskreads (bufStats s) + 1 |} s).

(** [std::cerr << msg]. *)
Definition log_cerr (msg : string) : M unit := fun s =>
  Ok tt (with_cerr (cerr s ++ [msg]) s).

(** *** The Page Index *)

(** Modelled from the spec: [BufHashTbl::lookup] fails with a distinct
    not-found signal when the pair is absent. *)
Definition hashTable_lookup (f : File) (p : PageId) : M FrameId := fun s =>
  match hashTable s !! (f, p) with
  | Some frame => Ok frame s
  | None => Raise (HashNotFoundException f p) s
  end.

(** Modelled from the spec: [BufHashTbl::insert] maps the pair to the
    frame. *)
Definition hashTable_insert (f : File) (p : PageId) (frame : FrameId) : M unit := fun s =>
  Ok tt (with_hashTable (<[(f, p) := frame]> (hashTable s)) s).

(** Modelled from the spec: [BufHashTbl::remove] drops the pair's entry. *)
Definition hashTable_remove (f : File) (p : PageId) : M unit := fun s =>
  Ok tt (with_hashTable (delete (f, p) (hashTable s)) s).

(** *** The Page Store *)

(** The file a descriptor names, for a call on it ([bufDescTable[i].file]);
    an empty handle has no store behind it. *)
Definition file_of (d : BufDesc) : M File := fun s =>
  match file d with
  | Some f => Ok f s
  | None => Undef
  end.

(** Modelled from the spec: [File::writePage] and [File::deletePage] are
    instructions to the store. *)
Definition file_writePage (f : File) (pg : Page) : M unit := fun s =>
  Ok tt (with_calls (calls s ++ [WritePage f pg]) s).

Definition file_deletePage (f : File) (p : PageId) : M unit := fun s =>
  Ok tt (with_calls (calls s ++ [DeletePage f p]) s).

(** ** The constructor *)

(** The constructor passes [bufs], a [std::uint32_t], to [HASHTABLE_SZ],
    which takes an [int]: from [2^31] on the argument arrives negative. *)
Definition int_of_uint32 (n : N) : Z :=
  if n <? 2 ^ 31 then Z.of_N n else (Z.of_N n - 2 ^ 32)%Z.

(** An [int] as a [double]: every 32-bit integer is a binary64 number. *)
Definition double_of_int (z : Z) : float :=
  if (z <? 0)%Z then opp (of_uint63 (Uint63.of_Z (- z))) else of_uint63 (Uint63.of_Z z).

(** [(int) x]: the fraction is dropped; the conversion is undefined when
    what is left is not an [int]. *)
Definition int_of_double (x : float) : option Z :=
  match FloatOps.Prim2SF x with
  | SpecFloat.S754_zero _ => Some 0%Z
  | SpecFloat.S754_finite negative m e =>
      let magnitude := (if 0 <=? e then Z.pos m * 2 ^ e else Z.pos m / 2 ^ (- e))%Z in
      let z := (if negative then - magnitude else magnitude)%Z in
      if ((- 2 ^ 31 <=? z) && (z <? 2 ^ 31))%Z then Some z else None
  | _ => None
  end.

(** [HASHTABLE_SZ(bufs)]: [((int)(bufs * 1.2) & -2) + 1].  The product is
    taken in binary64, rounded to nearest; [0x1.3333333333333p+0] is the
    binary64 number that [1.2] denotes. *)
Definition HASHTABLE_SZ (bufs : Z) : option Z :=
  match int_of_double (mul (double_of_int bufs) 0x1.3333333333333p+0%float) with
  | Some x => Some (Z.land x (-2) + 1)%Z
  | None => None
  end.

(** The body of [BufMgr::BufMgr(bufs)], the members initialised: every
    descriptor numbered and free, the clock hand on the last frame
    ([bufs - 1] in 32-bit arithmetic). *)
Definition BufMgr_new (bufs : N) : BufMgr :=
  {| numBufs := bufs;
     hashTable := ∅;
     bufDescTable :=
       map (fun i => {| file := None; pageNo := INVALID_NUMBER; frameNo := N.of_nat i;
                        pinCnt := 0; dirty := false; valid := false; refbit := false |})
           (seq 0 (N.to_nat bufs));
     bufPool := replicate (N.to_nat bufs) Page_default;
     clockHand := (bufs + 2 ^ 32 - 1) mod 2 ^ 32;
     bufStats := {| accesses := 0; diskreads := 0 |};
     calls := [];
     cerr := [] |}.

(** Whether the member initialiser [hashTable(HASHTABLE_SZ(bufs))] goes
    through: the size has to be defined, and positive.  The constructor of
    the Page Index is not among the sources; a table is taken to need at
    least one bucket, which leaves out the sizes from [2^31] on, where
    [bufs] arrives negative. *)
Definition constructible (bufs : N) : bool :=
  match HASHTABLE_SZ (int_of_uint32 bufs) with
  | Some htSize => (0 <? htSize)%Z
  | None => false
  end.

(** [BufMgr::BufMgr(bufs)]: the member initialisers, then the body.  [None]
    stands for a construction that does not complete. *)
Definition BufMgr_BufMgr (bufs : N) : option BufMgr :=
  if constructible bufs then Some (BufMgr_new bufs) else None.

(** ** The clock replacement engine *)

(** [advanceClock]: [clockHand = (clockHand + 1) % numBufs]. *)
Definition advanceClock : M unit := fun s =>
  if numBufs s =? 0 then Undef
  else Ok tt (with_clockHand (wrap32 (clockHand s + 1) mod numBufs s) s).

(** How the [while] loop of [allocBuf] is left: a frame was claimed
    ([alloc == true], by [return] or [break]), or the loop condition
    failed with [alloc] still false. *)
Inductive sweep : Type :=
| Claimed (frame : FrameId)
| Exhausted.

(** The loop of [allocBuf]; [frame_count] is the local 32-bit counter. *)
Fixpoint allocBuf_loop (fuel : nat) (frame_count : N) : M sweep :=
  match fuel with
  | O => fun _ => Timeout
  | S fuel =>
    n <- gets numBufs ;;
    if frame_count <=? n then
      hand <- gets clockHand ;;
      d <- desc_at hand ;;
      if negb (valid d) then ret (Claimed (frameNo d))
      else if refbit d then
        update_desc hand (with_refbit false) ;;;
        advanceClock ;;;
        allocBuf_loop fuel (wrap32 (frame_count + 1))
      else if (pinCnt d =? 0)%Z then
        if dirty d then
          f <- file_of d ;;
          pg <- pool_at hand ;;
          file_writePage f pg ;;;
          hashTable_remove f (pageNo d) ;;;
          update_desc hand clear ;;;
          d' <- desc_at hand ;;
          ret (Claimed (frameNo d'))
        else ret (Claimed (frameNo d))
      else
        advanceClock ;;;
        allocBuf_loop fuel (wrap32 (frame_count + 1))
    else ret Exhausted
  end.

(** [allocBuf(frame)]: the frame is the returned value; when the loop ends
    without a claim, [BufferExceededException] is thrown.  The loop makes
    at most [numBufs + 2] tests of its condition. *)
Definition allocBuf : M FrameId :=
  n <- gets numBufs ;;
  r <- allocBuf_loop (N.to_nat n + 2) 0 ;;
  match r with
  | Claimed frame => ret frame
  | Exhausted => throw BufferExceededException
  end.

(** ** A Page Store to run the manager against

    The store of the worked examples: a page read carries the number asked
    for and no content, a page allocated is numbered by the count of calls
    made so far. *)
Definition blank_readPage (h : list StoreCall) (f : File) (p : PageId) : Page :=
  mkPage p "".

Definition counting_allocatePage (h : list StoreCall) (f : File) : Page :=
  mkPage (N.of_nat (length h) + 1) "".

(** ** The page operations *)

(** Where the caller's [Page*&] points: into the pool at a frame, or
    nowhere the manager knows of (the caller's variable as it was). *)
Abbreviation PagePtr := (option N) (only parsing).

Section PageStore.

(** Modelled from the spec: what [File::readPage] and [File::allocatePage]
    answer is the store's business; the answer may depend on the file, the
    page asked for and every call made on the store so far. *)
Variable readPage_reply : list StoreCall -> File -> PageId -> Page.
Variable allocatePage_reply : list StoreCall -> File -> Page.

Definition file_readPage (f : File) (p : PageId) : M Page := fun s =>
  Ok (readPage_reply (calls s) f p) (with_calls (calls s ++ [ReadPage f p]) s).

Definition file_allocatePage (f : File) : M Page := fun s =>
  Ok (allocatePage_reply (calls s) f) (with_calls (calls s ++ [AllocatePage f]) s).

(** [readPage(file, pageNo, page)]: [page] is the caller's pointer on
    entry, the value returned is the caller's pointer on return. *)
Definition readPage (f : File) (p : PageId) (page : PagePtr) : M PagePtr :=
  try_catch
    (frame <- hashTable_lookup f p ;;
     update_desc frame (with_refbit true) ;;;
     update_desc frame (fun d => with_pinCnt (pinCnt d + 1) d) ;;;
     incr_accesses ;;;
     pool_at frame ;;;
     ret (Some frame))
    is_HashNotFound
    (try_catch
       (frame <- allocBuf ;;
        page_to_read <- file_readPage f p ;;
        incr_diskreads ;;;
        set_pool frame page_to_read ;;;
        hashTable_insert f p frame ;;;
        update_desc frame (Set_ f p) ;;;
        ret (Some frame))
       is_BufferExceeded
       (log_cerr "BufferExceededException: No such buffer found!" ;;;
        ret page)).

(** [unPinPage(file, pageNo, dirty)]. *)
Definition unPinPage (f : File) (p : PageId) (markDirty : bool) : M unit :=
  try_catch
    (frame <- hashTable_lookup f p ;;
     d <- desc_at frame ;;
     if (pinCnt d =? 0)%Z then throw (PageNotPinnedException f p frame)
     else
       update_desc frame (fun d => with_pinCnt (pinCnt d - 1) d) ;;;
       if markDirty then update_desc frame (with_dirty true) else ret tt)
    is_HashNotFound
    (log_cerr "Hash not found while unpinning page!").

(** [allocPage(file, pageNo, page)]: returns the new page's number and the
    caller's pointer. *)
Definition allocPage (f : File) : M (PageId * PagePtr) :=
  frame <- allocBuf ;;
  page_to_allocate <- file_allocatePage f ;;
  let p := page_number page_to_allocate in
  set_pool frame page_to_allocate ;;;
  incr_accesses ;;;
  update_desc frame (Set_ f p) ;;;
  hashTable_insert f p frame ;;;
  ret (p, Some frame).

(** ** The file operations *)

(** The body of the loop of [flushFile], for frame [id]. *)
Definition flushFile_frame (f : File) (id : FrameId) : M unit :=
  d <- desc_at id ;;
  if decide (file d = Some f) then
    if negb (pinCnt d =? 0)%Z then throw (PagePinnedException "Page is pinned" (pageNo d) id)
    else if negb (valid d) then throw (BadBufferException id (dirty d) (valid d) (refbit d))
    else
      (if dirty d then
         pg <- pool_at id ;;
         file_writePage f pg ;;;
         update_desc id (with_dirty false)
       else ret tt) ;;;
      d <- desc_at id ;;
      hashTable_remove f (pageNo d) ;;;
      update_desc id clear
  else ret tt.

(** [for (id = first; id < first + todo; id++)]. *)
Fixpoint flushFile_loop (f : File) (todo : nat) (id : FrameId) : M unit :=
  match todo with
  | O => ret tt
  | S todo => flushFile_frame f id ;;; flushFile_loop f todo (id + 1)
  end.

(** [flushFile(file)]: the loop runs over the frames [0 .. numBufs - 1]. *)
Definition flushFile (f : File) : M unit :=
  n <- gets numBufs ;;
  flushFile_loop f (N.to_nat n) 0.

(** [disposePage(file, PageNo)]. *)
Definition disposePage (f : File) (p : PageId) : M unit :=
  try_catch
    (frame <- hashTable_lookup f p ;;
     update_desc frame clear ;;;
     hashTable_remove f p)
    is_HashNotFound
    (ret tt) ;;;
  file_deletePage f p.

End PageStore.

(** ** Pool states and their invariants *)

(** Descriptor [i] of the table is numbered [i]. *)
Definition numbered (s : BufMgr) : Prop :=
  forall i d, bufDescTable s !! i = Some d -> frameNo d = N.of_nat i.

(** The two tables have [numBufs] entries each. *)
Definition sized (s : BufMgr) : Prop :=
  length (bufDescTable s) = N.to_nat (numBufs s) /\
  length (bufPool s) = N.to_nat (numBufs s).

(** A valid descriptor names its file. *)
Definition named (s : BufMgr) : Prop :=
  forall i d, bufDescTable s !! i = Some d -> valid d = true -> is_Some (file d).

Definition wf (s : BufMgr) : Prop :=
  numbered s /\ sized s /\ clockHand s < numBufs s /\ named s.

(** Frame [frame] holds page [p] of file [f]. *)
Definition carries (s : BufMgr) (frame : FrameId) (f : File) (p : PageId) : Prop :=
  exists d, bufDescTable s !! N.to_nat frame = Some d /\
            valid d = true /\ file d = Some f /\ pageNo d = p.

(** The Page Index and the descriptor table agree: a pair is indexed
    exactly when one valid descriptor carries it, and the index names that
    descriptor's slot. *)
Definition index_consistent (s : BufMgr) : Prop :=
  forall f p,
    (forall frame, hashTable s !! (f, p) = Some frame ->
       carries s frame f p /\ forall frame', carries s frame' f p -> frame' = frame) /\
    ((exists frame, carries s frame f p) -> is_Some (hashTable s !! (f, p))).

(** The state a call leaves behind, when it returns or throws. *)
Definition final {A} (r : Res A) : option BufMgr :=
  match r with
  | Ok _ s | Raise _ s => Some s
  | Undef | Timeout => None
  end.

(** [m] keeps [P]: however the call ends, a state that satisfied [P]
    still does. *)
Definition keeps {A} (P : BufMgr -> Prop) (m : M A) : Prop :=
  forall s, P s -> forall s', final (m s) = Some s' -> P s'.

(** The calls of the public interface. *)
Inductive Op : Type :=
| ReadPageOp (f : File) (p : PageId) (page : PagePtr)
| UnPinPageOp (f : File) (p : PageId) (markDirty : bool)
| AllocPageOp (f : File)
| FlushFileOp (f : File)
| DisposePageOp (f : File) (p : PageId).

Section Reachability.

Variable readPage_reply : list StoreCall -> File -> PageId -> Page.
Variable allocatePage_reply : list StoreCall -> File -> Page.

Definition exec (op : Op) (s : BufMgr) : option BufMgr :=
  match op with
  | ReadPageOp f p page => final (readPage readPage_reply f p page s)
  | UnPinPageOp f p markDirty => final (unPinPage f p markDirty s)
  | AllocPageOp f => final (allocPage allocatePage_reply f s)
  | FlushFileOp f => final (flushFile f s)
  | DisposePageOp f p => final (disposePage f p s)
  end.

Fixpoint exec_all (ops : list Op) (s : BufMgr) : option BufMgr :=
  match ops with
  | [] => Some s
  | op :: ops =>
    match exec op s with
    | Some s' => exec_all ops s'
    | None => None
    end
  end.

(** The states a pool of at least one frame goes through.  The pools it
    starts from are those of every size a [std::uint32_t] can hold, the
    ones [BufMgr_BufMgr] builds among them. *)
Inductive reachable : BufMgr -> Prop :=
| reachable_new bufs : 0 < bufs < 2 ^ 32 -> reachable (BufMgr_new bufs)
| reachable_step s op s' : reachable s -> exec op s = Some s' -> reachable s'.

End Reachability.

(** *** The sweep *)

(** The frame handed out by [allocBuf] is free or unpinned. *)
Definition claim_ok (t : list BufDesc) (frame : FrameId) : Prop :=
  exists d, t !! N.to_nat frame = Some d /\ (valid d = true -> pinCnt d = 0%Z).

(** A frame the sweep can claim the moment the hand reaches it: it is
    free, or valid, not referenced and not pinned. *)
Definition claimable_now (d : BufDesc) : Prop :=
  valid d = false \/ (refbit d = false /\ pinCnt d = 0%Z).

(** The number of frames the hand passes on its way from [hand] to [j], in
    a pool of [n] frames. *)
Definition sweep_distance (n hand j : N) : N :=
  if hand <=? j then j - hand else j + n - hand.

(** The fields no step of [allocBuf] writes. *)
Definition untouched_by_sweep (s0 s : BufMgr) : Prop :=
  numBufs s = numBufs s0 /\ bufPool s = bufPool s0 /\
  bufStats s = bufStats s0 /\ cerr s = cerr s0.

(** *** The flush *)

(** What stops a flush at a frame: the frame is of the file and is pinned,
    or not valid. *)
Definition violates (f : File) (d : BufDesc) : Prop :=
  file d = Some f /\ (pinCnt d <> 0%Z \/ valid d = false).

#[local] Instance violates_dec f d : Decision (violates f d).
Proof. unfold violates. apply _. Defined.

(** The exception the loop of [flushFile] throws at an offending frame. *)
Definition violation (id : FrameId) (d : BufDesc) : Exception :=
  if (pinCnt d =? 0)%Z
  then BadBufferException id (dirty d) (valid d) (refbit d)
  else PagePinnedException "Page is pinned" (pageNo d) id.

(** The pool after frame [id] of the file was flushed: written back when
    dirty, dropped from the index, reset. *)
Definition flushed (f : File) (id : FrameId) (d : BufDesc) (pg : Page) (s : BufMgr) : BufMgr :=
  with_bufDescTable (<[N.to_nat id := clear d]> (bufDescTable s))
    (with_hashTable (delete (f, pageNo d) (hashTable s))
       (if dirty d then with_calls (calls s ++ [WritePage f pg]) s else s)).

(** A descriptor after the loop of [flushFile] has passed it. *)
Definition passed (f : File) (d : BufDesc) : BufDesc :=
  if decide (file d = Some f) then clear d else d.

(** ** Worked pools *)

Definition resident (f : File) (p : PageId) (frame : FrameId) (pin : Z)
    (dirty_ refbit_ : bool) : BufDesc :=
  {| file := Some f; pageNo := p; frameNo := frame; pinCnt := pin;
     dirty := dirty_; valid := true; refbit := refbit_ |}.

(** A pool of one frame holding page 1 of "f", pinned once: the state
    after [readPage("f", 1)] on a new pool. *)
Definition pool1_pinned : BufMgr :=
  {| numBufs := 1;
     hashTable := {[ ("f", 1) := 0 ]};
     bufDescTable := [resident "f" 1 0 1 false true];
     bufPool := [mkPage 1 ""];
     clockHand := 0;
     bufStats := {| accesses := 0; diskreads := 1 |};
     calls := [ReadPage "f" 1];
     cerr := [] |}.

(** The same pool after [unPinPage("f", 1, false)]. *)
Definition pool1_unpinned : BufMgr :=
  with_bufDescTable [resident "f" 1 0 0 false true] pool1_pinned.

(** The same pool after a further [readPage("f", 2)] took the frame over. *)
Definition pool1_stale : BufMgr :=
  {| numBufs := 1;
     hashTable := <[ ("f", 2) := 0 ]> {[ ("f", 1) := 0 ]};
     bufDescTable := [resident "f" 2 0 1 false true];
     bufPool := [mkPage 2 ""];
     clockHand := 0;
     bufStats := {| accesses := 0; diskreads := 2 |};
     calls := [ReadPage "f" 1; ReadPage "f" 2];
     cerr := [] |}.

(** A pool of two frames, the clock hand on frame 0: frame 0 holds page 2
    and is pinned, frame 1 holds page 1, is not pinned and was referenced
    since the hand last passed. *)
Definition pool2_second_chance : BufMgr :=
  {| numBufs := 2;
     hashTable := <[ ("f", 2) := 0 ]> {[ ("f", 1) := 1 ]};
     bufDescTable := [resident "f" 2 0 1 false true; resident "f" 1 1 0 false true];
     bufPool := [mkPage 2 ""; mkPage 1 ""];
     clockHand := 0;
     bufStats := {| accesses := 1; diskreads := 2 |};
     calls := [ReadPage "f" 1; ReadPage "f" 2];
     cerr := [] |}.

Definition pool2_second_chance_ops : list Op :=
  [ReadPageOp "f" 1 None; ReadPageOp "f" 2 None; ReadPageOp "f" 1 None;
   UnPinPageOp "f" 1 false; UnPinPageOp "f" 1 false].

(** A pool of two frames, both of file "f": frame 0 holds page 2, dirty
    and not pinned, frame 1 holds page 1 and is pinned. *)
Definition pool2_dirty_then_pinned : BufMgr :=
  {| numBufs := 2;
     hashTable := <[ ("f", 2) := 0 ]> {[ ("f", 1) := 1 ]};
     bufDescTable := [resident "f" 2 0 0 true true; resident "f" 1 1 1 false false];
     bufPool := [mkPage 2 ""; mkPage 1 ""];
     clockHand := 0;
     bufStats := {| accesses := 0; diskreads := 2 |};
     calls := [ReadPage "f" 1; ReadPage "f" 2];
     cerr := [] |}.

Definition pool2_dirty_then_pinned_ops : list Op :=
  [ReadPageOp "f" 1 None; ReadPageOp "f" 2 None; UnPinPageOp "f" 2 true].

(** A pool of one frame that is free and yet pinned: page 1 was read,
    unpinned and displaced by page 2, page 2 was disposed of, and page 1 was
    read again through the index entry that had stayed behind. *)
Definition pool1_free_pinned : BufMgr :=
  {| numBufs := 1;
     hashTable := {[ ("f", 1) := 0 ]};
     bufDescTable := [with_pinCnt 1 (with_refbit true (clear (resident "f" 2 0 1 false true)))];
     bufPool := [mkPage 2 ""];
     clockHand := 0;
     bufStats := {| accesses := 1; diskreads := 2 |};
     calls := [ReadPage "f" 1; ReadPage "f" 2; DeletePage "f" 2];
     cerr := [] |}.

Definition pool1_free_pinned_ops : list Op :=
  [ReadPageOp "f" 1 None; UnPinPageOp "f" 1 false; ReadPageOp "f" 2 None;
   DisposePageOp "f" 2; ReadPageOp "f" 1 None].

(** The one-frame pool after [readPage("f", 1)] and
    [unPinPage("f", 1, true)]: page 1 is dirty and no longer pinned. *)
Definition pool1_dirty : BufMgr :=
  with_bufDescTable [resident "f" 1 0 0 true true] pool1_pinned.

(** ... and after an [allocBuf] has taken the frame: page 1 was written
    back, dropped from the index and its descriptor reset. *)
Definition pool1_written_back : BufMgr :=
  with_bufDescTable [clear (resident "f" 1 0 0 true true)]
    (with_hashTable ∅
       (with_calls [ReadPage "f" 1; WritePage "f" (mkPage 1 "")] pool1_pinned)).

(** A pool of two frames, the clock hand on frame 0: frame 0 holds page 2
    and is pinned, frame 1 holds page 1, is not pinned and its reference bit
    is clear. *)
Definition pool2_pinned_then_unreferenced : BufMgr :=
  {| numBufs := 2;
     hashTable := <[ ("f", 2) := 0 ]> {[ ("f", 1) := 1 ]};
     bufDescTable := [resident "f" 2 0 1 false true; resident "f" 1 1 0 false false];
     bufPool := [mkPage 2 ""; mkPage 1 ""];
     clockHand := 0;
     bufStats := {| accesses := 0; diskreads := 2 |};
     calls := [ReadPage "f" 1; ReadPage "f" 2];
     cerr := [] |}.

Definition pool2_pinned_then_unreferenced_ops : list Op :=
  [ReadPageOp "f" 1 None; ReadPageOp "f" 2 None; UnPinPageOp "f" 1 false].



(** ** The diagnostic dump *)

(** What [printSelf] writes on [std::cout], item by item: a string, a frame
    number, an [int], or a descriptor as [BufDesc::Print] shows it. *)
Inductive Out : Type :=
| OutStr (s : string)
| OutFrame (i : FrameId)
| OutInt (n : Z)
| OutDesc (d : BufDesc).

Definition newline : string := String (Ascii.ascii_of_nat 10) EmptyString.

(** The loop of [printSelf], for the frames [i .. i + todo - 1];
    [validFrames] is the local [int] counter, whose overflow is undefined,
    and [out] is what has been written so far.  Modelled from the spec:
    [BufDesc::Print] writes the descriptor's identity and state, kept here as
    the descriptor itself. *)
Fixpoint printSelf_loop (todo : nat) (i : FrameId) (validFrames : Z)
    (out : list Out) : M (Z * list Out) :=
  match todo with
  | O => ret (validFrames, out)
  | S todo =>
    d <- desc_at i ;;
    let out := (out ++ [OutStr "FrameNo:"; OutFrame i; OutStr " "; OutDesc d])%list in
    if valid d then
      if (validFrames =? 2 ^ 31 - 1)%Z then (fun _ => Undef)
      else printSelf_loop todo (i + 1) (validFrames + 1)%Z out
    else printSelf_loop todo (i + 1) validFrames out
  end.

(** [printSelf()]: the value returned is what was written on [std::cout]. *)
Definition printSelf : M (list Out) :=
  n <- gets numBufs ;;
  r <- printSelf_loop (N.to_nat n) 0 0%Z [] ;;
  ret (snd r ++ [OutStr "Total Number of Valid Frames:"; OutInt (fst r); OutStr newline])%list.

(** The dump of the frames of a table, the first of them numbered [i]. *)
Fixpoint frame_lines (i : FrameId) (t : list BufDesc) : list Out :=
  match t with
  | [] => []
  | d :: t =>
    ([OutStr "FrameNo:"; OutFrame i; OutStr " "; OutDesc d] ++ frame_lines (i + 1) t)%list
  end.

(** ** Further invariants and effects *)

(** Every frame the index names is a slot of the descriptor table. *)
Definition in_range (s : BufMgr) : Prop :=
  forall key frame, hashTable s !! key = Some frame ->
                    (N.to_nat frame < length (bufDescTable s))%nat.

(** Every descriptor of the table satisfies [Q]. *)
Definition every_desc (Q : BufDesc -> Prop) (s : BufMgr) : Prop :=
  forall i d, bufDescTable s !! i = Some d -> Q d.

Definition pin_nonneg (d : BufDesc) : Prop := (0 <= pinCnt d)%Z.

(** The write-backs a flush of file [f] makes over the frames of a table
    and their buffers, in frame order: one per dirty frame of the file. *)
Fixpoint flush_writes (f : File) (t : list BufDesc) (pool : list Page) : list StoreCall :=
  match t, pool with
  | d :: t, pg :: pool =>
    ((if decide (file d = Some f) then
        if dirty d then [WritePage f pg] else []
      else []) ++ flush_writes f t pool)%list
  | _, _ => []
  end.

(** ** Reasoning about computations *)

Lemma keeps_ret {A} P (a : A) : keeps P (ret a).
Proof. intros s H s' [= <-]. exact H. Qed.

Lemma keeps_throw {A} P e : keeps P (@throw A e).
Proof. intros s H s' [= <-]. exact H. Qed.

Lemma keeps_gets {A} P (proj : BufMgr -> A) : keeps P (gets proj).
Proof. intros s H s' [= <-]. exact H. Qed.

Lemma keeps_bind {A B} P (m : M A) (k : A -> M B) :
  keeps P m -> (forall a, keeps P (k a)) -> keeps P (bind m k).
Proof.
  intros Hm Hk s H s'. unfold bind.
  destruct (m s) as [a s1|e s1| |] eqn:E; simpl; try discriminate.
  - apply (Hk a). apply (Hm s H). now rewrite E.
  - intros [= <-]. apply (Hm s H). now rewrite E.
Qed.

Lemma keeps_try_catch {A} P (m : M A) handles h :
  keeps P m -> keeps P h -> keeps P (try_catch m handles h).
Proof.
  intros Hm Hh s H s'. unfold try_catch.
  destruct (m s) as [a s1|e s1| |] eqn:E; simpl; try discriminate.
  - intros [= <-]. apply (Hm s H). now rewrite E.
  - assert (P s1) by (apply (Hm s H); now rewrite E).
    destruct (handles e); [now apply Hh|]. now intros [= <-].
Qed.

Lemma keeps_if {A} P (b : bool) (m1 m2 : M A) :
  keeps P m1 -> keeps P m2 -> keeps P (if b then m1 else m2).
Proof. now destruct b. Qed.

Lemma keeps_desc_at P i : keeps P (desc_at i).
Proof.
  intros s H s'. unfold desc_at.
  destruct (bufDescTable s !! N.to_nat i); simpl; [|discriminate].
  now intros [= <-].
Qed.

Lemma keeps_pool_at P i : keeps P (pool_at i).
Proof.
  intros s H s'. unfold pool_at.
  destruct (bufPool s !! N.to_nat i); simpl; [|discriminate].
  now intros [= <-].
Qed.

Lemma keeps_file_of P d : keeps P (file_of d).
Proof.
  intros s H s'. unfold file_of.
  destruct (file d); simpl; [|discriminate].
  now intros [= <-].
Qed.

Lemma keeps_hashTable_lookup P f p : keeps P (hashTable_lookup f p).
Proof.
  intros s H s'. unfold hashTable_lookup.
  destruct (hashTable s !! (f, p)); simpl; now intros [= <-].
Qed.

(** *** The primitives keep the pool well formed *)

Lemma wf_update_desc i upd :
  (forall d, frameNo (upd d) = frameNo d) ->
  (forall d, (valid d = true -> is_Some (file d)) ->
             valid (upd d) = true -> is_Some (file (upd d))) ->
  keeps wf (update_desc i upd).
Proof.
  intros Hupd Hfile s (Hn & [Hd Hp] & Hc & Hf) s'. unfold update_desc.
  destruct (bufDescTable s !! N.to_nat i) as [d|] eqn:E; simpl; [|discriminate].
  intros [= <-]. split; [|split; [split|split]]; simpl; try assumption.
  - intros j dj Hj. simpl in Hj.
    destruct (decide (j = N.to_nat i)) as [->|Hne].
    + rewrite list_lookup_insert_eq in Hj by (eapply lookup_lt_Some; eauto).
      injection Hj as <-. rewrite Hupd. eauto.
    + rewrite list_lookup_insert_ne in Hj by congruence. eauto.
  - now rewrite length_insert.
  - intros j dj Hj. simpl in Hj.
    destruct (decide (j = N.to_nat i)) as [->|Hne].
    + rewrite list_lookup_insert_eq in Hj by (eapply lookup_lt_Some; eauto).
      injection Hj as <-. apply Hfile. eauto.
    + rewrite list_lookup_insert_ne in Hj by congruence. eauto.
Qed.

Lemma wf_set_pool i pg : keeps wf (set_pool i pg).
Proof.
  intros s (Hn & [Hd Hp] & Hc & Hf) s'. unfold set_pool.
  destruct (bufPool s !! N.to_nat i); simpl; [|discriminate].
  intros [= <-]. split; [|split; [split|split]]; simpl; try assumption.
  now rewrite length_insert.
Qed.

Lemma wf_advanceClock : keeps wf advanceClock.
Proof.
  intros s (Hn & Hs & Hc & Hf) s'. unfold advanceClock.
  destruct (numBufs s =? 0) eqn:E; simpl; [discriminate|].
  intros [= <-]. split; [|split; [|split]]; simpl; try assumption.
  apply N.mod_lt. now apply N.eqb_neq in E.
Qed.

Lemma wf_incr_accesses : keeps wf incr_accesses.
Proof. now intros s H s' [= <-]. Qed.

Lemma wf_incr_diskreads : keeps wf incr_diskreads.
Proof. now intros s H s' [= <-]. Qed.

Lemma wf_log_cerr msg : keeps wf (log_cerr msg).
Proof. now intros s H s' [= <-]. Qed.

Lemma wf_hashTable_insert f p frame : keeps wf (hashTable_insert f p frame).
Proof. now intros s H s' [= <-]. Qed.

Lemma wf_hashTable_remove f p : keeps wf (hashTable_remove f p).
Proof. now intros s H s' [= <-]. Qed.

Lemma wf_file_writePage f pg : keeps wf (file_writePage f pg).
Proof. now intros s H s' [= <-]. Qed.

Lemma wf_file_deletePage f p : keeps wf (file_deletePage f p).
Proof. now intros s H s' [= <-]. Qed.

Lemma wf_file_readPage rr f p : keeps wf (file_readPage rr f p).
Proof. now intros s H s' [= <-]. Qed.

Lemma wf_file_allocatePage ar f : keeps wf (file_allocatePage ar f).
Proof. now intros s H s' [= <-]. Qed.

Create HintDb keeps discriminated.
#[local] Hint Resolve keeps_ret keeps_throw keeps_gets keeps_desc_at keeps_pool_at
  keeps_file_of keeps_hashTable_lookup wf_set_pool wf_advanceClock wf_incr_accesses
  wf_incr_diskreads wf_log_cerr wf_hashTable_insert wf_hashTable_remove
  wf_file_writePage wf_file_deletePage wf_file_readPage wf_file_allocatePage : keeps.

Ltac keeps_step :=
  lazymatch goal with
  | |- keeps _ (bind _ _) => apply keeps_bind; [|intros ?]
  | |- keeps _ (try_catch _ _ _) => apply keeps_try_catch
  | |- keeps _ (if decide ?Q then _ else _) => destruct (decide Q)
  | |- keeps _ (if _ then _ else _) => apply keeps_if
  | |- keeps _ (match ?r with Claimed _ => _ | Exhausted => _ end) => destruct r
  | |- keeps wf (update_desc _ _) =>
      apply wf_update_desc; intros []; simpl; intros;
      first [reflexivity | discriminate | assumption | eauto | eexists; reflexivity]
  | |- _ => solve [auto with keeps]
  end.

Lemma wf_allocBuf_loop fuel : forall frame_count, keeps wf (allocBuf_loop fuel frame_count).
Proof.
  induction fuel as [|fuel IH]; intros frame_count.
  - intros s _ s'. discriminate.
  - cbn [allocBuf_loop]. repeat keeps_step.
Qed.

Lemma wf_allocBuf : keeps wf allocBuf.
Proof. unfold allocBuf. repeat keeps_step. apply wf_allocBuf_loop. Qed.

#[local] Hint Resolve wf_allocBuf : keeps.

Lemma wf_readPage rr f p page : keeps wf (readPage rr f p page).
Proof. unfold readPage. repeat keeps_step. Qed.

Lemma wf_unPinPage f p b : keeps wf (unPinPage f p b).
Proof. unfold unPinPage. repeat keeps_step. Qed.

Lemma wf_allocPage ar f : keeps wf (allocPage ar f).
Proof. unfold allocPage. repeat keeps_step. Qed.

Lemma wf_flushFile_frame f id : keeps wf (flushFile_frame f id).
Proof. unfold flushFile_frame. repeat keeps_step. Qed.

Lemma wf_flushFile_loop f todo : forall id, keeps wf (flushFile_loop f todo id).
Proof.
  induction todo as [|todo IH]; intros id; cbn [flushFile_loop].
  - auto with keeps.
  - apply keeps_bind; [apply wf_flushFile_frame | intros _; apply IH].
Qed.

Lemma wf_flushFile f : keeps wf (flushFile f).
Proof. unfold flushFile. repeat keeps_step. apply wf_flushFile_loop. Qed.

Lemma wf_disposePage f p : keeps wf (disposePage f p).
Proof. unfold disposePage. repeat keeps_step. Qed.

Lemma BufMgr_new_desc bufs i d :
  bufDescTable (BufMgr_new bufs) !! i = Some d ->
  frameNo d = N.of_nat i /\ valid d = false.
Proof.
  intros Hi. simpl in Hi.
  change (map ?g ?l) with (g <$> l) in Hi. rewrite list_lookup_fmap in Hi.
  destruct (seq 0 (N.to_nat bufs) !! i) as [j|] eqn:E; [|discriminate].
  apply lookup_seq in E as [-> _]. now injection Hi as <-.
Qed.

Lemma wf_BufMgr_new bufs : 0 < bufs < 2 ^ 32 -> wf (BufMgr_new bufs).
Proof.
  intros Hb. split; [|split; [split|split]].
  - intros i d Hi. now apply BufMgr_new_desc in Hi.
  - simpl. now rewrite length_map, length_seq.
  - simpl. now rewrite length_replicate.
  - simpl. replace (bufs + 2 ^ 32 - 1) with ((bufs - 1) + 1 * 2 ^ 32) by lia.
    rewrite N.Div0.mod_add. rewrite N.mod_small; lia.
  - intros i d Hi Hv. apply BufMgr_new_desc in Hi as [_ Hi]. congruence.
Qed.

Lemma wf_exec rr ar op s s' : wf s -> exec rr ar op s = Some s' -> wf s'.
Proof.
  intros Hwf H. destruct op as [f p page|f p b|f|f|f p]; simpl in H.
  - eapply wf_readPage; eauto.
  - eapply wf_unPinPage; eauto.
  - eapply wf_allocPage; eauto.
  - eapply wf_flushFile; eauto.
  - eapply wf_disposePage; eauto.
Qed.

Theorem reachable_wf rr ar s : reachable rr ar s -> wf s.
Proof.
  induction 1 as [bufs Hb|s op s' _ IH Hstep].
  - now apply wf_BufMgr_new.
  - eapply wf_exec; eauto.
Qed.

Lemma exec_all_reachable rr ar ops : forall s s',
  reachable rr ar s -> exec_all rr ar ops s = Some s' -> reachable rr ar s'.
Proof.
  induction ops as [|op ops IH]; intros s s' Hr H; simpl in H.
  - now injection H as <-.
  - destruct (exec rr ar op s) as [s1|] eqn:E; [|discriminate].
    eapply IH; [|exact H]. eapply reachable_step; eauto.
Qed.

(** *** Running the primitives *)

Lemma update_desc_run i upd s d :
  bufDescTable s !! N.to_nat i = Some d ->
  update_desc i upd s =
    Ok tt (with_bufDescTable (<[N.to_nat i := upd d]> (bufDescTable s)) s).
Proof. intros H. unfold update_desc. now rewrite H. Qed.

Lemma desc_at_run i s d :
  bufDescTable s !! N.to_nat i = Some d -> desc_at i s = Ok d s.
Proof. intros H. unfold desc_at. now rewrite H. Qed.

Lemma lookup_updated (t : list BufDesc) i d d' :
  t !! i = Some d -> <[i := d']> t !! i = Some d'.
Proof. intros H. apply list_lookup_insert_eq. eapply lookup_lt_Some; eauto. Qed.

(** ** disposePage *)

Lemma disposePage_hit f p s frame d :
  hashTable s !! (f, p) = Some frame ->
  bufDescTable s !! N.to_nat frame = Some d ->
  disposePage f p s =
    Ok tt (with_calls (calls s ++ [DeletePage f p])
             (with_hashTable (delete (f, p) (hashTable s))
                (with_bufDescTable (<[N.to_nat frame := clear d]> (bufDescTable s)) s))).
Proof.
  intros Hidx Hd. unfold disposePage, try_catch, bind, hashTable_lookup.
  rewrite Hidx, (update_desc_run _ _ _ _ Hd). reflexivity.
Qed.

Lemma disposePage_miss f p s :
  hashTable s !! (f, p) = None ->
  disposePage f p s = Ok tt (with_calls (calls s ++ [DeletePage f p]) s).
Proof.
  intros Hidx. unfold disposePage, try_catch, bind, hashTable_lookup.
  now rewrite Hidx.
Qed.

(** ** allocBuf *)

Lemma claim_ok_refbit t i d b frame :
  t !! i = Some d ->
  claim_ok (<[i := with_refbit b d]> t) frame -> claim_ok t frame.
Proof.
  intros Hi (d' & Hd' & Hpin).
  destruct (decide (N.to_nat frame = i)) as [<-|Hne].
  - exists d. split; [assumption|].
    rewrite (lookup_updated _ _ _ _ Hi) in Hd'. injection Hd' as <-. exact Hpin.
  - rewrite list_lookup_insert_ne in Hd' by congruence. now exists d'.
Qed.

Lemma numbered_update (t : list BufDesc) i d d' :
  (forall j dj, t !! j = Some dj -> frameNo dj = N.of_nat j) ->
  t !! i = Some d -> frameNo d' = frameNo d ->
  forall j dj, <[i := d']> t !! j = Some dj -> frameNo dj = N.of_nat j.
Proof.
  intros Hn Hi Hd' j dj Hj.
  destruct (decide (j = i)) as [->|Hne].
  - rewrite (lookup_updated _ _ _ _ Hi) in Hj. injection Hj as <-.
    rewrite Hd'. eauto.
  - rewrite list_lookup_insert_ne in Hj by congruence. eauto.
Qed.

Lemma advanceClock_run s :
  numBufs s <> 0 ->
  advanceClock s = Ok tt (with_clockHand (wrap32 (clockHand s + 1) mod numBufs s) s).
Proof. intros H. unfold advanceClock. apply N.eqb_neq in H. now rewrite H. Qed.

Lemma advanceClock_inv s s' :
  advanceClock s = Ok tt s' ->
  s' = with_clockHand (wrap32 (clockHand s + 1) mod numBufs s) s.
Proof. unfold advanceClock. destruct (numBufs s =? 0); [discriminate|]. now intros [= <-]. Qed.

(** One turn of the loop, by cases on the descriptor under the hand. *)
Lemma allocBuf_loop_unfold fuel frame_count s :
  allocBuf_loop (S fuel) frame_count s =
    if frame_count <=? numBufs s then
      match bufDescTable s !! N.to_nat (clockHand s) with
      | None => Undef
      | Some d =>
        if negb (valid d) then Ok (Claimed (frameNo d)) s
        else if refbit d then
          (advanceClock ;;; allocBuf_loop fuel (wrap32 (frame_count + 1)))
            (with_bufDescTable
               (<[N.to_nat (clockHand s) := with_refbit false d]> (bufDescTable s)) s)
        else if (pinCnt d =? 0)%Z then
          if dirty d then
            (f <- file_of d ;;
             pg <- pool_at (clockHand s) ;;
             file_writePage f pg ;;;
             hashTable_remove f (pageNo d) ;;;
             update_desc (clockHand s) clear ;;;
             d' <- desc_at (clockHand s) ;;
             ret (Claimed (frameNo d'))) s
          else Ok (Claimed (frameNo d)) s
        else (advanceClock ;;; allocBuf_loop fuel (wrap32 (frame_count + 1))) s
      end
    else Ok Exhausted s.
Proof.
  cbn [allocBuf_loop]. unfold bind at 1. unfold gets at 1.
  destruct (frame_count <=? numBufs s); [|reflexivity].
  unfold bind at 1. unfold gets at 1. unfold bind at 1. unfold desc_at at 1.
  destruct (bufDescTable s !! N.to_nat (clockHand s)) as [d|] eqn:Hd; [|reflexivity].
  destruct (valid d); simpl; [|reflexivity].
  destruct (refbit d).
  - unfold bind at 1. now rewrite (update_desc_run _ _ _ _ Hd).
  - destruct (pinCnt d =? 0)%Z; [|reflexivity]. now destruct (dirty d).
Qed.

(** The dirty victim: what the claim of a dirty frame does. *)
Lemma dirty_victim_run s d f pg :
  bufDescTable s !! N.to_nat (clockHand s) = Some d ->
  file d = Some f ->
  bufPool s !! N.to_nat (clockHand s) = Some pg ->
  (f <- file_of d ;;
   pg <- pool_at (clockHand s) ;;
   file_writePage f pg ;;;
   hashTable_remove f (pageNo d) ;;;
   update_desc (clockHand s) clear ;;;
   d' <- desc_at (clockHand s) ;;
   ret (Claimed (frameNo d'))) s =
  Ok (Claimed (frameNo d))
     (with_bufDescTable (<[N.to_nat (clockHand s) := clear d]> (bufDescTable s))
        (with_hashTable (delete (f, pageNo d) (hashTable s))
           (with_calls (calls s ++ [WritePage f pg]) s))).
Proof.
  intros Hd Hf Hpg. unfold bind, file_of, pool_at. rewrite Hf, Hpg. simpl.
  unfold update_desc. simpl. rewrite Hd. unfold desc_at. simpl.
  now rewrite (lookup_updated _ _ _ _ Hd).
Qed.

Lemma dirty_victim_inv s d r s' :
  bufDescTable s !! N.to_nat (clockHand s) = Some d ->
  (f <- file_of d ;;
   pg <- pool_at (clockHand s) ;;
   file_writePage f pg ;;;
   hashTable_remove f (pageNo d) ;;;
   update_desc (clockHand s) clear ;;;
   d' <- desc_at (clockHand s) ;;
   ret (Claimed (frameNo d'))) s = Ok r s' ->
  exists f pg, file d = Some f /\ bufPool s !! N.to_nat (clockHand s) = Some pg /\
    r = Claimed (frameNo d) /\
    s' = with_bufDescTable (<[N.to_nat (clockHand s) := clear d]> (bufDescTable s))
           (with_hashTable (delete (f, pageNo d) (hashTable s))
              (with_calls (calls s ++ [WritePage f pg]) s)).
Proof.
  intros Hd H.
  destruct (file d) as [f|] eqn:Hf;
    [|unfold bind at 1, file_of in H; rewrite Hf in H; discriminate].
  destruct (bufPool s !! N.to_nat (clockHand s)) as [pg|] eqn:Hpg;
    [|unfold bind, file_of, pool_at in H; rewrite Hf, Hpg in H; discriminate].
  rewrite (dirty_victim_run _ _ _ _ Hd Hf Hpg) in H. injection H as <- <-.
  now exists f, pg.
Qed.

Lemma allocBuf_loop_claim fuel : forall frame_count s frame s',
  numbered s ->
  allocBuf_loop fuel frame_count s = Ok (Claimed frame) s' ->
  claim_ok (bufDescTable s) frame.
Proof.
  induction fuel as [|fuel IH]; intros frame_count s frame s' Hn H; [discriminate|].
  rewrite allocBuf_loop_unfold in H.
  destruct (frame_count <=? numBufs s); [|discriminate].
  destruct (bufDescTable s !! N.to_nat (clockHand s)) as [d|] eqn:Hd; [|discriminate].
  pose proof (Hn _ _ Hd) as Hno.
  assert (Hhere : frameNo d = clockHand s) by lia.
  destruct (valid d) eqn:Hv; simpl in H.
  - destruct (refbit d) eqn:Hr.
    + unfold bind at 1 in H.
      destruct (advanceClock _) as [[] s1| | |] eqn:Ha in H; try discriminate.
      apply advanceClock_inv in Ha. subst s1.
      apply IH in H.
      * simpl in H. eapply claim_ok_refbit; eauto.
      * intros j dj. simpl. apply numbered_update with (d := d); auto.
    + destruct (pinCnt d =? 0)%Z eqn:Hp.
      * apply Z.eqb_eq in Hp.
        assert (frame = clockHand s) as ->.
        { destruct (dirty d).
          - apply (dirty_victim_inv _ _ _ _ Hd) in H as (f & pg & _ & _ & [= ->] & _).
            congruence.
          - injection H as <- _. congruence. }
        exists d. auto.
      * unfold bind at 1 in H.
        destruct (advanceClock _) as [[] s1| | |] eqn:Ha in H; try discriminate.
        apply advanceClock_inv in Ha. subst s1.
        apply IH in H; [exact H | exact Hn].
  - injection H as <- _. rewrite Hhere. exists d. split; [assumption|congruence].
Qed.

Lemma allocBuf_inv s frame s' :
  allocBuf s = Ok frame s' ->
  allocBuf_loop (N.to_nat (numBufs s) + 2) 0 s = Ok (Claimed frame) s'.
Proof.
  unfold allocBuf, bind, gets.
  destruct (allocBuf_loop _ _ _) as [[fr|] s1|e s1| |]; try discriminate.
  now intros [= <- <-].
Qed.

(** *** The sweep ends *)

Lemma dirty_victim_no_timeout s d :
  (f <- file_of d ;;
   pg <- pool_at (clockHand s) ;;
   file_writePage f pg ;;;
   hashTable_remove f (pageNo d) ;;;
   update_desc (clockHand s) clear ;;;
   d' <- desc_at (clockHand s) ;;
   ret (Claimed (frameNo d'))) s <> Timeout.
Proof.
  unfold bind, file_of, pool_at, file_writePage, hashTable_remove, update_desc, desc_at.
  simpl. repeat case_match; discriminate.
Qed.

Lemma busy_visit_no_timeout (k : M sweep) s :
  (forall s1, numBufs s1 = numBufs s -> k s1 <> Timeout) ->
  (advanceClock ;;; k) s <> Timeout.
Proof.
  intros Hk. unfold bind, advanceClock.
  destruct (numBufs s =? 0); [discriminate|]. now apply Hk.
Qed.

Lemma allocBuf_loop_terminates fuel : forall frame_count s,
  numBufs s + 1 < 2 ^ 32 ->
  frame_count <= numBufs s + 1 ->
  (N.to_nat (numBufs s) + 2 - N.to_nat frame_count <= fuel)%nat ->
  allocBuf_loop fuel frame_count s <> Timeout.
Proof.
  induction fuel as [|fuel IH]; intros frame_count s Hb Hc Hf; [lia|].
  rewrite allocBuf_loop_unfold.
  destruct (frame_count <=? numBufs s) eqn:Hle; [|discriminate].
  apply N.leb_le in Hle.
  assert (Hw : wrap32 (frame_count + 1) = frame_count + 1)
    by (unfold wrap32; apply N.mod_small; lia).
  destruct (bufDescTable s !! N.to_nat (clockHand s)) as [d|]; [|discriminate].
  destruct (valid d); simpl; [|discriminate].
  destruct (refbit d).
  - apply busy_visit_no_timeout. simpl. intros s1 Hs1. rewrite Hw.
    apply IH; rewrite ?Hs1; lia.
  - destruct (pinCnt d =? 0)%Z.
    + destruct (dirty d); [apply dirty_victim_no_timeout|discriminate].
    + apply busy_visit_no_timeout. intros s1 Hs1. rewrite Hw.
      apply IH; rewrite ?Hs1; lia.
Qed.

(** [allocBuf] always ends, by a return or by an exception (or is
    undefined), as long as [numBufs + 1] fits the 32-bit counter. *)
Theorem allocBuf_terminates s :
  numBufs s + 1 < 2 ^ 32 -> allocBuf s <> Timeout.
Proof.
  intros Hb. unfold allocBuf, bind, gets.
  pose proof (allocBuf_loop_terminates (N.to_nat (numBufs s) + 2) 0 s Hb) as H.
  destruct (allocBuf_loop _ _ _) as [[fr|] s1|e s1| |]; try discriminate.
  exfalso. apply H; [lia|lia|reflexivity].
Qed.

(** More fuel does not change how the sweep ends. *)
Lemma allocBuf_loop_fuel fuel : forall fuel' frame_count s,
  (fuel <= fuel')%nat ->
  allocBuf_loop fuel frame_count s <> Timeout ->
  allocBuf_loop fuel' frame_count s = allocBuf_loop fuel frame_count s.
Proof.
  induction fuel as [|fuel IH]; intros fuel' frame_count s Hle H; [now destruct H|].
  destruct fuel' as [|fuel']; [lia|].
  rewrite allocBuf_loop_unfold in H. rewrite !allocBuf_loop_unfold.
  destruct (frame_count <=? numBufs s); [|reflexivity].
  destruct (bufDescTable s !! N.to_nat (clockHand s)) as [d|]; [|reflexivity].
  destruct (negb (valid d)); [reflexivity|].
  destruct (refbit d).
  - unfold bind in *. destruct (advanceClock _) as [[] s1|e s1| |]; try reflexivity.
    apply IH; [lia|assumption].
  - destruct (pinCnt d =? 0)%Z; [reflexivity|].
    unfold bind in *. destruct (advanceClock _) as [[] s1|e s1| |]; try reflexivity.
    apply IH; [lia|assumption].
Qed.

(** *** What the sweep leaves alone *)

Ltac keeps_untouched m :=
  let s := fresh "s" in let H := fresh "H" in let s' := fresh "s'" in
  intros s H s'; unfold m; repeat case_match; simpl; try discriminate;
  intros [= <-]; exact H.

Lemma untouched_allocBuf_loop s0 fuel : forall frame_count,
  keeps (untouched_by_sweep s0) (allocBuf_loop fuel frame_count).
Proof.
  induction fuel as [|fuel IH]; intros frame_count.
  - intros s _ s'. discriminate.
  - cbn [allocBuf_loop].
    repeat lazymatch goal with
      | |- keeps _ (allocBuf_loop _ _) => apply IH
      | |- keeps _ (update_desc _ _) => keeps_untouched update_desc
      | |- keeps _ advanceClock => keeps_untouched advanceClock
      | |- keeps _ (file_writePage _ _) => keeps_untouched file_writePage
      | |- keeps _ (hashTable_remove _ _) => keeps_untouched hashTable_remove
      | |- _ => keeps_step
      end.
Qed.

Lemma untouched_allocBuf s0 : keeps (untouched_by_sweep s0) allocBuf.
Proof. unfold allocBuf. repeat keeps_step. apply untouched_allocBuf_loop. Qed.

Lemma allocBuf_untouched s s' :
  final (allocBuf s) = Some s' -> untouched_by_sweep s s'.
Proof.
  intros H. apply (untouched_allocBuf s s); [|exact H]. now repeat split.
Qed.

(** The only exception [allocBuf] throws. *)
Lemma allocBuf_loop_no_raise fuel : forall frame_count s e s',
  allocBuf_loop fuel frame_count s <> Raise e s'.
Proof.
  induction fuel as [|fuel IH]; intros frame_count s e s'; [discriminate|].
  rewrite allocBuf_loop_unfold.
  destruct (frame_count <=? numBufs s); [|discriminate].
  destruct (bufDescTable s !! N.to_nat (clockHand s)) as [d|]; [|discriminate].
  destruct (negb (valid d)); [discriminate|].
  assert (Hbusy : forall s0, (advanceClock ;;; allocBuf_loop fuel (wrap32 (frame_count + 1))) s0
                             <> Raise e s').
  { intros s0. unfold bind, advanceClock.
    destruct (numBufs s0 =? 0); [discriminate|apply IH]. }
  destruct (refbit d); [apply Hbusy|].
  destruct (pinCnt d =? 0)%Z; [|apply Hbusy].
  destruct (dirty d); [|discriminate].
  unfold bind, file_of, pool_at, file_writePage, hashTable_remove, update_desc, desc_at.
  simpl. repeat case_match; discriminate.
Qed.

Lemma allocBuf_raise s e s' :
  allocBuf s = Raise e s' -> e = BufferExceededException.
Proof.
  unfold allocBuf, bind, gets.
  destruct (allocBuf_loop _ _ _) as [[fr|] s1|e1 s1| |] eqn:E; try discriminate.
  - unfold throw. now intros [= <- _].
  - now apply allocBuf_loop_no_raise in E.
Qed.

(** *** Frames the sweep is sure to find *)

Lemma busy_visit_run (k : M sweep) s :
  numBufs s <> 0 ->
  (advanceClock ;;; k) s = k (with_clockHand (wrap32 (clockHand s + 1) mod numBufs s) s).
Proof. intros H. unfold bind. now rewrite advanceClock_run. Qed.

Lemma next_hand_distance n hand j :
  hand < n -> j < n -> n < 2 ^ 32 -> hand <> j ->
  sweep_distance n (wrap32 (hand + 1) mod n) j + 1 = sweep_distance n hand j.
Proof.
  intros Hh Hj Hn Hne. unfold sweep_distance, wrap32.
  rewrite (N.mod_small (hand + 1)) by lia.
  destruct (N.eq_dec (hand + 1) n) as [Hlast|Hlast].
  - rewrite Hlast, N.Div0.mod_same.
    destruct (N.leb_spec 0 j), (N.leb_spec hand j); lia.
  - rewrite N.mod_small by lia.
    destruct (N.leb_spec (hand + 1) j), (N.leb_spec hand j); lia.
Qed.

Lemma wf_next_hand s :
  wf s -> wf (with_clockHand (wrap32 (clockHand s + 1) mod numBufs s) s).
Proof.
  intros (Hn & Hs & Hc & Hf). split; [|split; [|split]]; simpl; try assumption.
  apply N.mod_lt. lia.
Qed.

Lemma allocBuf_loop_finds fuel : forall frame_count s j d,
  wf s -> numBufs s + 1 < 2 ^ 32 ->
  bufDescTable s !! N.to_nat j = Some d -> claimable_now d ->
  frame_count + sweep_distance (numBufs s) (clockHand s) j <= numBufs s ->
  (N.to_nat (sweep_distance (numBufs s) (clockHand s) j) < fuel)%nat ->
  exists frame s', allocBuf_loop fuel frame_count s = Ok (Claimed frame) s'.
Proof.
  induction fuel as [|fuel IH]; intros frame_count s j d Hwf Hb Hj Hd Hc Hf; [lia|].
  pose proof Hwf as (Hn & [Hlen Hpool] & Hhand & Hnamed).
  assert (Hjn : j < numBufs s) by (apply lookup_lt_Some in Hj; lia).
  rewrite allocBuf_loop_unfold.
  assert (Hle : frame_count <= numBufs s) by lia.
  apply N.leb_le in Hle. rewrite Hle. apply N.leb_le in Hle.
  destruct (lookup_lt_is_Some_2 (bufDescTable s) (N.to_nat (clockHand s))) as [d0 Hd0]; [lia|].
  destruct (lookup_lt_is_Some_2 (bufPool s) (N.to_nat (clockHand s))) as [pg Hpg]; [lia|].
  rewrite Hd0.
  assert (Hw : wrap32 (frame_count + 1) = frame_count + 1)
    by (unfold wrap32; apply N.mod_small; lia).
  destruct (valid d0) eqn:Hv; simpl; [|eauto].
  assert (Hbusy : refbit d0 = true \/ pinCnt d0 <> 0%Z -> clockHand s <> j).
  { intros Hbusy Heq. rewrite Heq, Hj in Hd0. injection Hd0 as ->.
    destruct Hd as [Hd|[Hr Hp]]; [congruence|]. destruct Hbusy; congruence. }
  destruct (refbit d0) eqn:Hr.
  - specialize (Hbusy (or_introl eq_refl)).
    rewrite busy_visit_run by (simpl; lia). rewrite Hw. simpl.
    pose proof (next_hand_distance (numBufs s) (clockHand s) j Hhand Hjn ltac:(lia) Hbusy) as Hdist.
    eapply (IH _ _ j d); simpl; try lia; try assumption.
    + apply (wf_next_hand (with_bufDescTable _ s)).
      eapply (wf_update_desc (clockHand s) (with_refbit false)); [| |exact Hwf|].
      * now intros [].
      * now intros [].
      * rewrite (update_desc_run _ _ _ _ Hd0). reflexivity.
    + rewrite list_lookup_insert_ne by lia. exact Hj.
  - destruct (pinCnt d0 =? 0)%Z eqn:Hp.
    + destruct (dirty d0); [|eauto].
      destruct (Hnamed _ _ Hd0 Hv) as [f Hfile].
      rewrite (dirty_victim_run _ _ _ _ Hd0 Hfile Hpg). eauto.
    + apply Z.eqb_neq in Hp. specialize (Hbusy (or_intror Hp)).
      rewrite busy_visit_run by lia. rewrite Hw.
      pose proof (next_hand_distance (numBufs s) (clockHand s) j Hhand Hjn ltac:(lia) Hbusy) as Hdist.
      eapply (IH _ _ j d); simpl; try lia; try assumption.
      now apply wf_next_hand.
Qed.

(** In a well-formed pool with a frame that is free, or valid, unpinned
    and not referenced since the hand last passed it, [allocBuf] returns a
    frame. *)
Theorem allocBuf_finds_claimable s j d :
  wf s -> numBufs s + 1 < 2 ^ 32 ->
  bufDescTable s !! N.to_nat j = Some d -> claimable_now d ->
  exists frame s', allocBuf s = Ok frame s'.
Proof.
  intros Hwf Hb Hj Hd.
  pose proof Hwf as (_ & [Hlen _] & Hhand & _).
  assert (Hjn : j < numBufs s) by (apply lookup_lt_Some in Hj; lia).
  assert (Hdist : sweep_distance (numBufs s) (clockHand s) j < numBufs s).
  { unfold sweep_distance. destruct (clockHand s <=? j) eqn:E;
      [apply N.leb_le in E|apply N.leb_gt in E]; lia. }
  destruct (allocBuf_loop_finds (N.to_nat (numBufs s) + 2) 0 s j d)
    as (frame & s' & Hrun); try assumption; try lia.
  exists frame, s'. unfold allocBuf, bind, gets. now rewrite Hrun.
Qed.

(** *** A pool with every frame pinned *)

Lemma all_pinned_update (t : list BufDesc) i d b :
  t !! i = Some d ->
  (forall j dj, t !! j = Some dj -> valid dj = true /\ pinCnt dj <> 0%Z) ->
  forall j dj, <[i := with_refbit b d]> t !! j = Some dj ->
               valid dj = true /\ pinCnt dj <> 0%Z.
Proof.
  intros Hi Hall j dj Hj.
  destruct (decide (j = i)) as [->|Hne].
  - rewrite (lookup_updated _ _ _ _ Hi) in Hj. injection Hj as <-. simpl. eauto.
  - rewrite list_lookup_insert_ne in Hj by congruence. eauto.
Qed.

Lemma allocBuf_loop_all_pinned fuel : forall frame_count s,
  wf s -> numBufs s + 1 < 2 ^ 32 ->
  frame_count <= numBufs s + 1 ->
  (forall i d, bufDescTable s !! i = Some d -> valid d = true /\ pinCnt d <> 0%Z) ->
  (N.to_nat (numBufs s) + 2 - N.to_nat frame_count <= fuel)%nat ->
  exists s', allocBuf_loop fuel frame_count s = Ok Exhausted s'.
Proof.
  induction fuel as [|fuel IH]; intros frame_count s Hwf Hb Hc Hall Hf; [lia|].
  pose proof Hwf as (Hn & [Hlen Hpool] & Hhand & Hnamed).
  rewrite allocBuf_loop_unfold.
  destruct (N.leb_spec frame_count (numBufs s)) as [Hle|Hgt]; [|eauto].
  destruct (lookup_lt_is_Some_2 (bufDescTable s) (N.to_nat (clockHand s)))
    as [d0 Hd0]; [lia|].
  rewrite Hd0. destruct (Hall _ _ Hd0) as [Hv Hp]. rewrite Hv. simpl.
  assert (Hw : wrap32 (frame_count + 1) = frame_count + 1)
    by (unfold wrap32; apply N.mod_small; lia).
  destruct (refbit d0).
  - rewrite busy_visit_run by (simpl; lia). rewrite Hw.
    apply IH; simpl; try lia.
    + apply (wf_next_hand (with_bufDescTable _ s)).
      eapply (wf_update_desc (clockHand s) (with_refbit false)); [| |exact Hwf|].
      * now intros [].
      * now intros [].
      * rewrite (update_desc_run _ _ _ _ Hd0). reflexivity.
    + now apply all_pinned_update.
  - apply Z.eqb_neq in Hp. rewrite Hp.
    rewrite busy_visit_run by lia. rewrite Hw.
    apply IH; simpl; try lia; try assumption. now apply wf_next_hand.
Qed.

(** When every frame is valid and pinned, [allocBuf] throws
    [BufferExceededException]. *)
Theorem allocBuf_all_pinned s :
  wf s -> numBufs s + 1 < 2 ^ 32 ->
  (forall i d, bufDescTable s !! i = Some d -> valid d = true /\ pinCnt d <> 0%Z) ->
  exists s', allocBuf s = Raise BufferExceededException s'.
Proof.
  intros Hwf Hb Hall.
  destruct (allocBuf_loop_all_pinned (N.to_nat (numBufs s) + 2) 0 s)
    as (s' & Hrun); try assumption; try lia.
  exists s'. unfold allocBuf, bind, gets. now rewrite Hrun.
Qed.

(** *** The clean victim *)

Lemma allocBuf_loop_clean_victim fuel : forall frame_count s frame s' d,
  numbered s ->
  allocBuf_loop fuel frame_count s = Ok (Claimed frame) s' ->
  bufDescTable s !! N.to_nat frame = Some d ->
  valid d = true -> dirty d = false ->
  hashTable s' = hashTable s /\ calls s' = calls s /\
  bufDescTable s' !! N.to_nat frame = Some (with_refbit false d).
Proof.
  induction fuel as [|fuel IH]; intros frame_count s frame s' d Hn H Hd Hv Hc;
    [discriminate|].
  rewrite allocBuf_loop_unfold in H.
  destruct (frame_count <=? numBufs s); [|discriminate].
  destruct (bufDescTable s !! N.to_nat (clockHand s)) as [d0|] eqn:Hd0; [|discriminate].
  pose proof (Hn _ _ Hd0) as Hno.
  assert (Hhere : frameNo d0 = clockHand s) by lia.
  destruct (valid d0) eqn:Hv0; simpl in H.
  - destruct (refbit d0) eqn:Hr.
    + unfold bind at 1 in H.
      destruct (advanceClock _) as [[] s1| | |] eqn:Ha in H; try discriminate.
      apply advanceClock_inv in Ha. subst s1.
      assert (Hn1 : numbered
                (with_clockHand (wrap32 (clockHand s + 1) mod numBufs s)
                   (with_bufDescTable
                      (<[N.to_nat (clockHand s) := with_refbit false d0]> (bufDescTable s)) s))).
      { intros i di. simpl. apply numbered_update with (d := d0); auto. }
      destruct (decide (N.to_nat frame = N.to_nat (clockHand s))) as [Heq|Hne].
      * rewrite Heq, Hd0 in Hd. injection Hd as ->.
        destruct (IH _ _ _ _ (with_refbit false d) Hn1 H) as (Hh & Hcalls & Hdesc);
          [simpl; rewrite Heq; eapply lookup_updated; eauto|exact Hv|exact Hc|].
        simpl in Hh, Hcalls. repeat split; auto.
      * destruct (IH _ _ _ _ d Hn1 H) as (Hh & Hcalls & Hdesc);
          [simpl; rewrite list_lookup_insert_ne by congruence; exact Hd
          |exact Hv|exact Hc|].
        simpl in Hh, Hcalls. repeat split; auto.
    + destruct (pinCnt d0 =? 0)%Z eqn:Hp.
      * destruct (dirty d0) eqn:Hdirty.
        -- apply (dirty_victim_inv _ _ _ _ Hd0) in H as (f & pg & _ & _ & [= ->] & _).
           rewrite Hhere, Hd0 in Hd. congruence.
        -- injection H as <- <-. rewrite Hhere, Hd0 in Hd. injection Hd as <-.
           repeat split; auto. rewrite Hhere, Hd0. f_equal.
           destruct d0; unfold with_refbit; simpl in *. now subst.
      * unfold bind at 1 in H.
        destruct (advanceClock _) as [[] s1| | |] eqn:Ha in H; try discriminate.
        apply advanceClock_inv in Ha. subst s1.
        eapply IH in H; eauto.
  - injection H as <- _. rewrite Hhere, Hd0 in Hd. congruence.
Qed.

(** A valid frame that is handed out clean is handed out as it stands: the
    sweep has left the index and the Page Store alone and the descriptor is
    still valid, with the identity it had. *)
Theorem allocBuf_clean_victim s frame s' d :
  numbered s ->
  allocBuf s = Ok frame s' ->
  bufDescTable s !! N.to_nat frame = Some d ->
  valid d = true -> dirty d = false ->
  hashTable s' = hashTable s /\ calls s' = calls s /\
  bufDescTable s' !! N.to_nat frame = Some (with_refbit false d).
Proof.
  intros Hn H. apply allocBuf_inv in H. eapply allocBuf_loop_clean_victim; eauto.
Qed.

(** ** readPage *)

Section ReadPage.

Variable readPage_reply : list StoreCall -> File -> PageId -> Page.

Lemma readPage_hit f p page s frame d pg :
  hashTable s !! (f, p) = Some frame ->
  bufDescTable s !! N.to_nat frame = Some d ->
  bufPool s !! N.to_nat frame = Some pg ->
  readPage readPage_reply f p page s =
    Ok (Some frame)
       (with_bufStats {| accesses := accesses (bufStats s) + 1;
                         diskreads := diskreads (bufStats s) |}
          (with_bufDescTable
             (<[N.to_nat frame := with_pinCnt (pinCnt d + 1) (with_refbit true d)]>
                (bufDescTable s)) s)).
Proof.
  intros Hidx Hd Hpg. unfold readPage. unfold try_catch at 1.
  unfold bind at 1. unfold hashTable_lookup at 1. rewrite Hidx.
  unfold bind at 1. rewrite (update_desc_run _ _ _ _ Hd).
  unfold bind at 1.
  erewrite update_desc_run by (simpl; eapply lookup_updated; eauto).
  unfold bind, incr_accesses, pool_at, ret. simpl. rewrite Hpg.
  now rewrite list_insert_insert_eq.
Qed.

Lemma readPage_miss_claimed f p page s frame s1 d pg :
  hashTable s !! (f, p) = None ->
  allocBuf s = Ok frame s1 ->
  bufDescTable s1 !! N.to_nat frame = Some d ->
  bufPool s1 !! N.to_nat frame = Some pg ->
  readPage readPage_reply f p page s =
    Ok (Some frame)
       (with_bufDescTable (<[N.to_nat frame := Set_ f p d]> (bufDescTable s1))
          (with_hashTable (<[(f, p) := frame]> (hashTable s1))
             (with_bufPool (<[N.to_nat frame := readPage_reply (calls s1) f p]> (bufPool s1))
                (with_bufStats {| accesses := accesses (bufStats s1);
                                  diskreads := diskreads (bufStats s1) + 1 |}
                   (with_calls (calls s1 ++ [ReadPage f p]) s1))))).
Proof.
  intros Hidx Halloc Hd Hpg. unfold readPage. unfold try_catch at 1.
  unfold bind at 1. unfold hashTable_lookup at 1. rewrite Hidx. simpl.
  unfold try_catch. unfold bind at 1. rewrite Halloc.
  unfold bind, file_readPage, incr_diskreads, set_pool, hashTable_insert, update_desc, ret.
  simpl. rewrite Hpg. simpl. now rewrite Hd.
Qed.

Lemma readPage_miss_exceeded f p page s s1 :
  hashTable s !! (f, p) = None ->
  allocBuf s = Raise BufferExceededException s1 ->
  readPage readPage_reply f p page s =
    Ok page (with_cerr (cerr s1 ++ ["BufferExceededException: No such buffer found!"]) s1).
Proof.
  intros Hidx Halloc. unfold readPage. unfold try_catch at 1.
  unfold bind at 1. unfold hashTable_lookup at 1. rewrite Hidx. simpl.
  unfold try_catch. unfold bind at 1. now rewrite Halloc.
Qed.

(** The counters after a read that hits. *)
Lemma readPage_hit_counters f p page s frame d pg :
  hashTable s !! (f, p) = Some frame ->
  bufDescTable s !! N.to_nat frame = Some d ->
  bufPool s !! N.to_nat frame = Some pg ->
  exists s', readPage readPage_reply f p page s = Ok (Some frame) s' /\
    accesses (bufStats s') = (accesses (bufStats s) + 1)%Z /\
    diskreads (bufStats s') = diskreads (bufStats s) /\
    calls s' = calls s.
Proof.
  intros Hidx Hd Hpg. eexists. split; [eapply readPage_hit; eauto|]. now simpl.
Qed.

(** The counters after a read that misses and is given a frame: the read
    from disk is counted, the access is not. *)
Lemma readPage_miss_counters f p page s frame s1 d pg :
  hashTable s !! (f, p) = None ->
  allocBuf s = Ok frame s1 ->
  bufDescTable s1 !! N.to_nat frame = Some d ->
  bufPool s1 !! N.to_nat frame = Some pg ->
  exists s', readPage readPage_reply f p page s = Ok (Some frame) s' /\
    accesses (bufStats s') = accesses (bufStats s) /\
    diskreads (bufStats s') = (diskreads (bufStats s) + 1)%Z.
Proof.
  intros Hidx Halloc Hd Hpg.
  eexists. split; [eapply readPage_miss_claimed; eauto|]. simpl.
  destruct (allocBuf_untouched s s1) as (_ & _ & -> & _); [now rewrite Halloc|].
  split; reflexivity.
Qed.

End ReadPage.

(** ** flushFile *)

Lemma flushFile_frame_other f id s d :
  bufDescTable s !! N.to_nat id = Some d -> file d <> Some f ->
  flushFile_frame f id s = Ok tt s.
Proof.
  intros Hd Hf. unfold flushFile_frame, bind. rewrite (desc_at_run _ _ _ Hd).
  now destruct (decide (file d = Some f)).
Qed.

Lemma flushFile_frame_violation f id s d :
  bufDescTable s !! N.to_nat id = Some d -> violates f d ->
  flushFile_frame f id s = Raise (violation id d) s.
Proof.
  intros Hd [Hf Hv]. unfold flushFile_frame, bind, violation.
  rewrite (desc_at_run _ _ _ Hd).
  destruct (decide (file d = Some f)); [|contradiction].
  destruct (pinCnt d =? 0)%Z eqn:Hp; simpl; [|reflexivity].
  apply Z.eqb_eq in Hp. destruct Hv as [Hv| ->]; [contradiction|reflexivity].
Qed.

Lemma flushFile_frame_flush f id s d pg :
  bufDescTable s !! N.to_nat id = Some d -> file d = Some f ->
  ~ violates f d ->
  bufPool s !! N.to_nat id = Some pg ->
  flushFile_frame f id s = Ok tt (flushed f id d pg s).
Proof.
  intros Hd Hf Hv Hpg. unfold flushFile_frame. unfold bind at 1.
  rewrite (desc_at_run _ _ _ Hd).
  destruct (decide (file d = Some f)); [|contradiction].
  destruct (pinCnt d =? 0)%Z eqn:Hp; simpl;
    [|destruct Hv; split; [assumption|left; apply Z.eqb_neq; assumption]].
  destruct (valid d) eqn:Hval; simpl; [|destruct Hv; split; auto].
  unfold flushed. destruct (dirty d) eqn:Hdirty.
  - unfold bind, pool_at, file_writePage, update_desc, desc_at, hashTable_remove.
    rewrite Hpg. simpl. rewrite Hd. simpl.
    rewrite (lookup_updated _ _ _ _ Hd). simpl.
    rewrite (lookup_updated _ _ _ _ Hd). simpl.
    now rewrite list_insert_insert_eq.
  - unfold bind, ret, update_desc, desc_at, hashTable_remove. simpl.
    repeat (rewrite Hd; simpl). reflexivity.
Qed.

(** The loop over a run of frames none of which stops it. *)
Lemma flushFile_loop_prefix f k : forall id s,
  (N.to_nat id + k <= length (bufDescTable s))%nat ->
  (N.to_nat id + k <= length (bufPool s))%nat ->
  (forall j dj, (N.to_nat id <= j < N.to_nat id + k)%nat ->
                bufDescTable s !! j = Some dj -> ~ violates f dj) ->
  exists s', flushFile_loop f k id s = Ok tt s' /\
    (forall j, (j < N.to_nat id \/ N.to_nat id + k <= j)%nat ->
               bufDescTable s' !! j = bufDescTable s !! j) /\
    (forall j dj, (N.to_nat id <= j < N.to_nat id + k)%nat ->
                  bufDescTable s !! j = Some dj ->
                  bufDescTable s' !! j = Some (passed f dj)) /\
    length (bufDescTable s') = length (bufDescTable s) /\
    bufPool s' = bufPool s /\
    ((forall j dj, (N.to_nat id <= j < N.to_nat id + k)%nat ->
                   bufDescTable s !! j = Some dj -> file dj <> Some f) -> s' = s).
Proof.
  induction k as [|k IH]; intros id s Hlen Hpool Hok.
  - exists s. repeat split; auto. intros j dj Hj. lia.
  - destruct (lookup_lt_is_Some_2 (bufDescTable s) (N.to_nat id)) as [d Hd]; [lia|].
    destruct (lookup_lt_is_Some_2 (bufPool s) (N.to_nat id)) as [pg Hpg]; [lia|].
    assert (Hnext : N.to_nat (id + 1) = S (N.to_nat id)) by lia.
    cbn [flushFile_loop]. unfold bind at 1.
    destruct (decide (file d = Some f)) as [Hf|Hf].
    + assert (Hnv : ~ violates f d) by (apply (Hok (N.to_nat id)); [lia|exact Hd]).
      rewrite (flushFile_frame_flush f id s d pg Hd Hf Hnv Hpg).
      destruct (IH (id + 1) (flushed f id d pg s)) as (s' & Hrun & Hout & Hin & Hl & Hp & _).
      * simpl. rewrite length_insert. lia.
      * unfold flushed. simpl. destruct (dirty d); simpl; lia.
      * intros j dj Hj. simpl. rewrite list_lookup_insert_ne by lia.
        apply Hok. lia.
      * exists s'. split; [exact Hrun|]. simpl in *.
        split; [|split; [|split; [|split]]].
        -- intros j Hj. rewrite Hout by lia. apply list_lookup_insert_ne. lia.
        -- intros j dj Hj Hdj.
           destruct (decide (j = N.to_nat id)) as [->|Hne].
           ++ rewrite Hout by lia. rewrite (lookup_updated _ _ _ _ Hd).
              rewrite Hd in Hdj. injection Hdj as <-.
              unfold passed. now destruct (decide (file d = Some f)).
           ++ apply Hin; [lia|]. rewrite list_lookup_insert_ne by lia. exact Hdj.
        -- rewrite Hl. apply length_insert.
        -- rewrite Hp. unfold flushed. simpl. now destruct (dirty d).
        -- intros Hnone. exfalso. apply (Hnone (N.to_nat id) d); [lia|auto|auto].
    + rewrite (flushFile_frame_other f id s d Hd Hf).
      destruct (IH (id + 1) s) as (s' & Hrun & Hout & Hin & Hl & Hp & Hsame).
      * lia.
      * lia.
      * intros j dj Hj. apply Hok. lia.
      * exists s'. split; [exact Hrun|].
        split; [|split; [|split; [|split]]]; auto.
        -- intros j Hj. apply Hout. lia.
        -- intros j dj Hj Hdj.
           destruct (decide (j = N.to_nat id)) as [->|Hne].
           ++ rewrite Hout by lia. rewrite Hd in Hdj. injection Hdj as <-.
              rewrite Hd. unfold passed. now destruct (decide (file d = Some f)).
           ++ apply Hin; [lia|exact Hdj].
        -- intros Hnone. apply Hsame. intros j dj Hj. apply Hnone. lia.
Qed.

Lemma flush_writes_cons f d t pg pool :
  flush_writes f (d :: t) (pg :: pool) =
    ((if decide (file d = Some f) then if dirty d then [WritePage f pg] else [] else [])
       ++ flush_writes f t pool)%list.
Proof. reflexivity. Qed.

(** What the loop over a run of frames, none of which stops it, does to
    the Page Store and to the index. *)
Lemma flushFile_loop_store_index f k : forall id s,
  (N.to_nat id + k <= length (bufDescTable s))%nat ->
  (N.to_nat id + k <= length (bufPool s))%nat ->
  (forall j dj, (N.to_nat id <= j < N.to_nat id + k)%nat ->
                bufDescTable s !! j = Some dj -> ~ violates f dj) ->
  exists s', flushFile_loop f k id s = Ok tt s' /\
    calls s' = (calls s ++ flush_writes f (take k (drop (N.to_nat id) (bufDescTable s)))
                                          (take k (drop (N.to_nat id) (bufPool s))))%list /\
    (forall key, hashTable s' !! key = None \/ hashTable s' !! key = hashTable s !! key) /\
    (forall j dj, (N.to_nat id <= j < N.to_nat id + k)%nat ->
                  bufDescTable s !! j = Some dj -> file dj = Some f ->
                  hashTable s' !! (f, pageNo dj) = None) /\
    (forall key,
       (forall j dj, (N.to_nat id <= j < N.to_nat id + k)%nat ->
                     bufDescTable s !! j = Some dj -> file dj = Some f ->
                     key <> (f, pageNo dj)) ->
       hashTable s' !! key = hashTable s !! key).
Proof.
  induction k as [|k IH]; intros id s Hlen Hpool Hok.
  - exists s. split; [reflexivity|]. simpl. rewrite app_nil_r.
    repeat split; auto. intros j dj Hj. lia.
  - destruct (lookup_lt_is_Some_2 (bufDescTable s) (N.to_nat id)) as [d Hd]; [lia|].
    destruct (lookup_lt_is_Some_2 (bufPool s) (N.to_nat id)) as [pg Hpg]; [lia|].
    assert (Hnext : N.to_nat (id + 1) = S (N.to_nat id)) by lia.
    assert (Hnv : ~ violates f d) by (apply (Hok (N.to_nat id)); [lia|exact Hd]).
    cbn [flushFile_loop]. unfold bind at 1.
    rewrite (drop_S _ _ _ Hd), (drop_S _ _ _ Hpg). cbn [take]. rewrite flush_writes_cons.
    destruct (decide (file d = Some f)) as [Hf|Hf].
    + rewrite (flushFile_frame_flush f id s d pg Hd Hf Hnv Hpg).
      destruct (IH (id + 1) (flushed f id d pg s)) as (s' & Hrun & Hcalls & Hshrink & Hgone & Hkeep).
      * simpl. rewrite length_insert. lia.
      * unfold flushed. simpl. destruct (dirty d); simpl; lia.
      * intros j dj Hj. simpl. rewrite list_lookup_insert_ne by lia. apply Hok. lia.
      * exists s'. split; [exact Hrun|].
        assert (Hh1 : hashTable (flushed f id d pg s) = delete (f, pageNo d) (hashTable s))
          by reflexivity.
        assert (Hp1 : bufPool (flushed f id d pg s) = bufPool s)
          by (unfold flushed; simpl; now destruct (dirty d)).
        assert (Hc1 : calls (flushed f id d pg s) =
                      (calls s ++ if dirty d then [WritePage f pg] else [])%list).
        { unfold flushed. simpl. destruct (dirty d); simpl; [reflexivity|].
          now rewrite app_nil_r. }
        split; [|split; [|split]].
        -- rewrite Hcalls, Hc1, Hp1, Hnext. simpl bufDescTable.
           rewrite drop_insert_lt by lia. now rewrite app_assoc.
        -- intros key. destruct (Hshrink key) as [Hnone|Hsame]; [now left|].
           rewrite Hsame, Hh1.
           destruct (decide ((f, pageNo d) = key)) as [<-|Hne].
           ++ left. apply lookup_delete_eq.
           ++ right. now apply lookup_delete_ne.
        -- intros j dj Hj Hdj Hfj.
           destruct (decide (j = N.to_nat id)) as [->|Hne].
           ++ rewrite Hd in Hdj. injection Hdj as <-.
              destruct (Hshrink (f, pageNo d)) as [Hnone|Hsame]; [exact Hnone|].
              rewrite Hsame, Hh1. apply lookup_delete_eq.
           ++ apply (Hgone j dj); [lia| |exact Hfj].
              simpl. rewrite list_lookup_insert_ne by lia. exact Hdj.
        -- intros key Hkey. rewrite Hkeep.
           ++ rewrite Hh1. apply lookup_delete_ne. intros Heq.
              apply (Hkey (N.to_nat id) d); [lia|exact Hd|exact Hf|now symmetry].
           ++ intros j dj Hj Hdj Hfj. simpl in Hdj.
              rewrite list_lookup_insert_ne in Hdj by lia.
              apply (Hkey j dj); [lia|exact Hdj|exact Hfj].
    + rewrite (flushFile_frame_other f id s d Hd Hf).
      destruct (IH (id + 1) s) as (s' & Hrun & Hcalls & Hshrink & Hgone & Hkeep).
      * lia.
      * lia.
      * intros j dj Hj. apply Hok. lia.
      * exists s'. split; [exact Hrun|].
        split; [|split; [exact Hshrink|split]].
        -- rewrite Hcalls, Hnext. reflexivity.
        -- intros j dj Hj Hdj Hfj.
           destruct (decide (j = N.to_nat id)) as [->|Hne]; [congruence|].
           apply (Hgone j dj); [lia|exact Hdj|exact Hfj].
        -- intros key Hkey. apply Hkeep. intros j dj Hj. apply Hkey. lia.
Qed.

(** A frame of the file that the loop flushes does not stay as it was: it
    was valid and no longer is. *)
Lemma passed_changes f d : file d = Some f -> ~ violates f d -> passed f d <> d.
Proof.
  intros Hf Hnv Heq. unfold passed in Heq.
  destruct (decide (file d = Some f)); [|contradiction].
  apply Hnv. split; [exact Hf|]. right. rewrite <- Heq. reflexivity.
Qed.

Lemma flushFile_loop_app f a : forall b id s,
  flushFile_loop f (a + b) id s =
    (flushFile_loop f a id ;;; flushFile_loop f b (id + N.of_nat a)) s.
Proof.
  induction a as [|a IH]; intros b id s.
  - simpl. unfold bind, ret. now rewrite N.add_0_r.
  - cbn [Nat.add flushFile_loop]. unfold bind.
    destruct (flushFile_frame f id s) as [[] s1|e s1| |]; try reflexivity.
    rewrite IH. unfold bind. replace (id + 1 + N.of_nat a) with (id + N.of_nat (S a)) by lia.
    reflexivity.
Qed.

(** A flush that meets no offending frame returns. *)
Theorem flushFile_succeeds f s :
  sized s ->
  (forall i d, bufDescTable s !! i = Some d -> ~ violates f d) ->
  exists s', flushFile f s = Ok tt s' /\
    (forall j dj, bufDescTable s !! j = Some dj ->
                  bufDescTable s' !! j = Some (passed f dj)).
Proof.
  intros [Hlen Hpool] Hok.
  destruct (flushFile_loop_prefix f (N.to_nat (numBufs s)) 0 s)
    as (s' & Hrun & Hout & Hin & _); simpl; try lia.
  { intros j dj _. apply Hok. }
  exists s'. split; [exact Hrun|].
  intros j dj Hj. apply Hin; [|exact Hj].
  apply lookup_lt_Some in Hj. simpl. lia.
Qed.

(** ** Worked pools: how they arise *)

Lemma pool1_pinned_reachable :
  reachable blank_readPage counting_allocatePage pool1_pinned.
Proof.
  apply (exec_all_reachable _ _ [ReadPageOp "f" 1 None] (BufMgr_new 1)).
  - apply reachable_new. split; reflexivity.
  - vm_compute. reflexivity.
Defined.

Lemma pool1_unpinned_reachable :
  reachable blank_readPage counting_allocatePage pool1_unpinned.
Proof.
  apply (exec_all_reachable _ _ [UnPinPageOp "f" 1 false] pool1_pinned).
  - exact pool1_pinned_reachable.
  - vm_compute. reflexivity.
Defined.

Lemma pool1_stale_reachable :
  reachable blank_readPage counting_allocatePage pool1_stale.
Proof.
  apply (exec_all_reachable _ _ [ReadPageOp "f" 2 None] pool1_unpinned).
  - exact pool1_unpinned_reachable.
  - vm_compute. reflexivity.
Defined.

Lemma pool2_second_chance_reachable :
  reachable blank_readPage counting_allocatePage pool2_second_chance.
Proof.
  apply (exec_all_reachable _ _ pool2_second_chance_ops (BufMgr_new 2)).
  - apply reachable_new. split; reflexivity.
  - vm_compute. reflexivity.
Defined.

Lemma pool2_dirty_then_pinned_reachable :
  reachable blank_readPage counting_allocatePage pool2_dirty_then_pinned.
Proof.
  apply (exec_all_reachable _ _ pool2_dirty_then_pinned_ops (BufMgr_new 2)).
  - apply reachable_new. split; reflexivity.
  - vm_compute. reflexivity.
Defined.

Lemma pool1_unpinned_consistent : index_consistent pool1_unpinned.
Proof.
  intros f p. split.
  - intros frame H. cbn in H.
    apply lookup_singleton_Some in H as [[= <- <-] <-]. split.
    + exists (resident "f" 1 0 0 false true). now repeat split.
    + intros frame' (d & Hd & _). cbn in Hd.
      destruct (N.to_nat frame') as [|n] eqn:E; [lia|discriminate].
  - intros (frame & d & Hd & _ & Hf & Hp). cbn in Hd.
    destruct (N.to_nat frame) as [|n]; [|discriminate].
    injection Hd as <-. cbn in Hf, Hp. injection Hf as <-. subst p.
    exists 0. reflexivity.
Qed.

(** A free frame is handed out without a look at its pin count, and a free
    frame with a positive pin count is reachable, through an index entry
    that outlived its page. *)
Remark allocBuf_free_frame_pinned :
  reachable blank_readPage counting_allocatePage pool1_free_pinned /\
  (exists d, bufDescTable pool1_free_pinned !! 0%nat = Some d /\
             valid d = false /\ pinCnt d = 1%Z) /\
  allocBuf pool1_free_pinned = Ok 0 pool1_free_pinned.
Proof.
  split; [|split].
  - apply (exec_all_reachable _ _ pool1_free_pinned_ops (BufMgr_new 1)).
    + apply reachable_new. split; reflexivity.
    + vm_compute. reflexivity.
  - eexists. repeat split.
  - vm_compute. reflexivity.
Qed.

(** ** The properties of the specification *)

(** C1 (the code at a failing input).  The one-frame pool whose frame holds
    page 1 of "f", valid, clean and no longer pinned, is reachable and
    consistent.  There [allocBuf] hands out frame 0 and leaves both the index
    entry of ("f", 1) and the valid descriptor in place: the victim is neither
    dropped from the index nor reset.  The [readPage("f", 2)] that asked for
    the frame then leaves ("f", 1) indexed at a frame that carries ("f", 2),
    so index and descriptor table disagree. *)
Theorem allocBuf_clean_victim_stays_indexed :
  reachable blank_readPage counting_allocatePage pool1_unpinned /\
  index_consistent pool1_unpinned /\
  (exists s', allocBuf pool1_unpinned = Ok 0 s' /\
     hashTable s' !! ("f", 1) = Some 0 /\
     bufDescTable s' !! 0%nat = Some (resident "f" 1 0 0 false false)) /\
  readPage blank_readPage "f" 2 None pool1_unpinned = Ok (Some 0) pool1_stale /\
  reachable blank_readPage counting_allocatePage pool1_stale /\
  hashTable pool1_stale !! ("f", 1) = Some 0 /\
  ~ carries pool1_stale 0 "f" 1 /\
  ~ index_consistent pool1_stale.
Proof.
  assert (Hidx : hashTable pool1_stale !! ("f", 1) = Some 0)
    by (vm_compute; reflexivity).
  assert (Hnot : ~ carries pool1_stale 0 "f" 1).
  { intros (d & Hd & _ & _ & Hp). cbn in Hd. injection Hd as <-. discriminate. }
  split; [exact pool1_unpinned_reachable|].
  split; [exact pool1_unpinned_consistent|].
  split; [eexists; split; [vm_compute; reflexivity|split; reflexivity]|].
  split; [vm_compute; reflexivity|].
  split; [exact pool1_stale_reachable|].
  split; [exact Hidx|]. split; [exact Hnot|].
  intros Hc. destruct (Hc "f" 1) as [Hc1 _].
  destruct (Hc1 0 Hidx) as [Hcarries _]. exact (Hnot Hcarries).
Qed.

(** C2 (the code at a failing input).  On the one-frame pool whose frame is
    pinned, page 2 of "f" is not indexed and [allocBuf] throws
    [BufferExceededException]; [readPage("f", 2)] nevertheless returns
    normally, with the caller's pointer as it was on entry, having only
    written a line on the diagnostic stream. *)
Theorem readPage_exceeded_returns_normally :
  hashTable pool1_pinned !! ("f", 2) = None /\
  exists s1, allocBuf pool1_pinned = Raise BufferExceededException s1 /\
    forall page,
      readPage blank_readPage "f" 2 page pool1_pinned =
        Ok page (with_cerr ["BufferExceededException: No such buffer found!"] s1).
Proof.
  assert (Hmiss : hashTable pool1_pinned !! ("f", 2) = None)
    by (vm_compute; reflexivity).
  split; [exact Hmiss|]. eexists. split; [vm_compute; reflexivity|].
  intros page. now rewrite (readPage_miss_exceeded _ _ _ _ _ _ Hmiss eq_refl).
Qed.

(** C3 (as amended).  When some frame of the file is pinned or not valid,
    [flushFile] throws at the first such frame [k], in frame order:
    [PagePinnedException] when that frame is pinned, [BadBufferException]
    otherwise.  Frame [k] and every later frame are as they were, and so is
    the buffer pool.  The frames before [k] have been passed by the loop as
    in a flush of those [k] frames alone: those of the file are reset, the
    Page Store has received one write per dirty one of them, in frame order,
    and nothing else, their pages are out of the index and every other
    index entry is as it was.  The pool as a whole is as it was exactly when
    no frame of the file comes before [k]. *)
Theorem flushFile_stops_at_first_violation f s :
  sized s ->
  (exists i d, bufDescTable s !! i = Some d /\ violates f d) ->
  exists k d s',
    bufDescTable s !! k = Some d /\ violates f d /\
    (forall j dj, (j < k)%nat -> bufDescTable s !! j = Some dj -> ~ violates f dj) /\
    flushFile f s = Raise (violation (N.of_nat k) d) s' /\
    flushFile_loop f k 0 s = Ok tt s' /\
    (forall j, (k <= j)%nat -> bufDescTable s' !! j = bufDescTable s !! j) /\
    (forall j dj, (j < k)%nat -> bufDescTable s !! j = Some dj ->
                  bufDescTable s' !! j = Some (passed f dj)) /\
    bufPool s' = bufPool s /\
    calls s' = (calls s ++ flush_writes f (take k (bufDescTable s))
                                          (take k (bufPool s)))%list /\
    (forall j dj, (j < k)%nat -> bufDescTable s !! j = Some dj -> file dj = Some f ->
                  hashTable s' !! (f, pageNo dj) = None) /\
    (forall key,
       (forall j dj, (j < k)%nat -> bufDescTable s !! j = Some dj -> file dj = Some f ->
                     key <> (f, pageNo dj)) ->
       hashTable s' !! key = hashTable s !! key) /\
    (s' = s <->
     forall j dj, (j < k)%nat -> bufDescTable s !! j = Some dj -> file dj <> Some f).
Proof.
  intros [Hlen Hpool] (i & di & Hi & Hvi).
  destruct (list_find (violates f) (bufDescTable s)) as [[k d]|] eqn:Hfind.
  2:{ apply list_find_None in Hfind. rewrite Forall_forall in Hfind.
      exfalso. apply (Hfind di); [|exact Hvi]. eapply list_elem_of_lookup_2; eauto. }
  apply list_find_Some in Hfind as (Hk & Hvk & Hfirst).
  pose proof (lookup_lt_Some _ _ _ Hk) as Hklt.
  assert (Hbefore : forall j dj, (N.to_nat 0 <= j < N.to_nat 0 + k)%nat ->
                      bufDescTable s !! j = Some dj -> ~ violates f dj).
  { intros j dj Hj Hdj. apply (Hfirst j dj Hdj). simpl in Hj. lia. }
  destruct (flushFile_loop_prefix f k 0 s) as (s' & Hrun & Hout & Hin & Hl & Hp & Hsame);
    [simpl; lia|simpl; lia|exact Hbefore|].
  destruct (flushFile_loop_store_index f k 0 s)
    as (s2 & Hrun2 & Hcalls & _ & Hgone & Hkeep); [simpl; lia|simpl; lia|exact Hbefore|].
  rewrite Hrun in Hrun2. injection Hrun2 as <-.
  exists k, d, s'. simpl in *.
  split; [exact Hk|]. split; [exact Hvk|].
  split; [intros j dj Hj Hdj; eauto|].
  split; [|split; [exact Hrun|split; [|split; [|split; [exact Hp|split; [|split; [|split]]]]]]].
  - unfold flushFile, bind, gets.
    replace (N.to_nat (numBufs s)) with (k + S (N.to_nat (numBufs s) - S k))%nat by lia.
    rewrite flushFile_loop_app. unfold bind at 1. rewrite Hrun.
    cbn [flushFile_loop]. unfold bind at 1. rewrite N.add_0_l.
    rewrite (flushFile_frame_violation f (N.of_nat k) s' d); [reflexivity| |exact Hvk].
    rewrite Nat2N.id. rewrite Hout by lia. exact Hk.
  - intros j Hj. apply Hout. lia.
  - intros j dj Hj. apply Hin. lia.
  - rewrite Hcalls. change (N.to_nat 0) with 0%nat. now rewrite !drop_0.
  - intros j dj Hj. apply Hgone. lia.
  - intros key Hkey. apply Hkeep. intros j dj Hj. apply Hkey. lia.
  - split.
    + intros -> j dj Hj Hdj Hf.
      assert (Hnv : ~ violates f dj) by eauto.
      pose proof (Hin j dj ltac:(lia) Hdj) as Hpassed. rewrite Hdj in Hpassed.
      injection Hpassed as Hpassed. symmetry in Hpassed.
      exact (passed_changes f dj Hf Hnv Hpassed).
    + intros Hnone. apply Hsame. intros j dj Hj. apply Hnone. lia.
Qed.

(** C4.  In every reachable pool state, a frame that [allocBuf] returns is
    free or has pin count 0: a valid frame is claimed only when it is not
    pinned. *)
Theorem allocBuf_victim_unpinned rr ar s frame s' :
  reachable rr ar s ->
  allocBuf s = Ok frame s' ->
  exists d, bufDescTable s !! N.to_nat frame = Some d /\
            (valid d = true -> pinCnt d = 0%Z).
Proof.
  intros Hr H. apply reachable_wf in Hr as (Hn & _).
  apply allocBuf_inv in H. eapply allocBuf_loop_claim; eauto.
Qed.

(** C5 (the code at a failing input).  The two-frame pool with the hand on
    frame 0, frame 0 pinned and frame 1 valid with pin count 0 (referenced
    since the hand last passed) is reachable.  There [allocBuf] throws
    [BufferExceededException] although frame 1 could be freed; a second call
    from the state it leaves hands out frame 1. *)
Theorem allocBuf_exceeded_despite_unpinned_frame :
  reachable blank_readPage counting_allocatePage pool2_second_chance /\
  (exists d, bufDescTable pool2_second_chance !! 1%nat = Some d /\
             valid d = true /\ pinCnt d = 0%Z) /\
  exists s', allocBuf pool2_second_chance = Raise BufferExceededException s' /\
             exists s'', allocBuf s' = Ok 1 s''.
Proof.
  split; [exact pool2_second_chance_reachable|].
  split; [eexists; repeat split; reflexivity|].
  eexists. split; [vm_compute; reflexivity|].
  eexists. vm_compute. reflexivity.
Qed.

(** C6 (the code at a failing input).  [readPage("f", 1)] on a new pool of
    one frame misses in the index and obtains frame 0; it counts the disk
    read but leaves the access counter as it was. *)
Theorem readPage_miss_leaves_accesses :
  hashTable (BufMgr_new 1) !! ("f", 1) = None /\
  exists s', readPage blank_readPage "f" 1 None (BufMgr_new 1) = Ok (Some 0) s' /\
    accesses (bufStats s') = accesses (bufStats (BufMgr_new 1)) /\
    diskreads (bufStats s') = (diskreads (bufStats (BufMgr_new 1)) + 1)%Z.
Proof.
  split; [vm_compute; reflexivity|].
  eexists. split; [vm_compute; reflexivity|]. split; reflexivity.
Qed.

(** C7.  [unPinPage] on a page the index maps to a frame: when the frame's
    pin count is 0 the call throws [PageNotPinnedException] and the pool is
    as it was; otherwise it returns, the pin count is one less, the dirty
    bit is set when [markDirty] is true and is as it was when [markDirty] is
    false, and nothing else has changed. *)
Theorem unPinPage_resident f p markDirty s frame d :
  hashTable s !! (f, p) = Some frame ->
  bufDescTable s !! N.to_nat frame = Some d ->
  (pinCnt d = 0%Z ->
     unPinPage f p markDirty s = Raise (PageNotPinnedException f p frame) s) /\
  (pinCnt d <> 0%Z ->
     unPinPage f p markDirty s =
       Ok tt (with_bufDescTable
                (<[N.to_nat frame :=
                     with_dirty (if markDirty then true else dirty d)
                                (with_pinCnt (pinCnt d - 1) d)]> (bufDescTable s)) s)).
Proof.
  intros Hidx Hd. unfold unPinPage, try_catch, bind, hashTable_lookup.
  rewrite Hidx, (desc_at_run _ _ _ Hd). split; intros Hpin.
  - rewrite Hpin. reflexivity.
  - apply Z.eqb_neq in Hpin. rewrite Hpin.
    rewrite (update_desc_run _ _ _ _ Hd).
    destruct markDirty.
    + erewrite update_desc_run by (simpl; eapply lookup_updated; eauto).
      simpl. now rewrite list_insert_insert_eq.
    + unfold ret. now destruct d.
Qed.

(** C8.  [disposePage] returns normally whether or not the page is
    indexed.  On a hit the frame's descriptor is cleared and the index entry
    removed; on a miss descriptor table and index are as they were.  In both
    cases the last call made on the Page Store is the deletion of the
    page. *)
Theorem disposePage_spec f p s :
  (forall frame, hashTable s !! (f, p) = Some frame ->
                 is_Some (bufDescTable s !! N.to_nat frame)) ->
  exists s', disposePage f p s = Ok tt s' /\
    calls s' = (calls s ++ [DeletePage f p])%list /\
    hashTable s' !! (f, p) = None /\
    match hashTable s !! (f, p) with
    | Some frame =>
        exists d, bufDescTable s !! N.to_nat frame = Some d /\
                  bufDescTable s' = <[N.to_nat frame := clear d]> (bufDescTable s) /\
                  bufDescTable s' !! N.to_nat frame = Some (clear d) /\
                  hashTable s' = delete (f, p) (hashTable s)
    | None => bufDescTable s' = bufDescTable s /\ hashTable s' = hashTable s
    end.
Proof.
  intros Hrange. destruct (hashTable s !! (f, p)) as [frame|] eqn:Hidx.
  - destruct (Hrange frame eq_refl) as [d Hd].
    eexists. split; [eapply disposePage_hit; eauto|]. simpl.
    split; [reflexivity|]. split; [apply lookup_delete_eq|].
    exists d. repeat split; try assumption. eapply lookup_updated; eauto.
  - eexists. split; [now apply disposePage_miss|]. simpl. auto.
Qed.

(** C9 (as amended).  [unPinPage] on a page that is not in the index writes
    a line on the diagnostic stream and returns normally; nothing else in
    the pool changes and no exception reaches the caller. *)
Theorem unPinPage_absent f p markDirty s :
  hashTable s !! (f, p) = None ->
  unPinPage f p markDirty s =
    Ok tt (with_cerr (cerr s ++ ["Hash not found while unpinning page!"]) s).
Proof.
  intros Hidx. unfold unPinPage, try_catch, bind, hashTable_lookup.
  now rewrite Hidx.
Qed.

(** C10.  [disposePage] on a resident page whose pin count is positive
    checks nothing and throws nothing: it returns with the descriptor
    cleared, the index entry removed and the Page Store told to delete the
    page. *)
Theorem disposePage_pinned f p s frame d :
  hashTable s !! (f, p) = Some frame ->
  bufDescTable s !! N.to_nat frame = Some d ->
  (0 < pinCnt d)%Z ->
  exists s', disposePage f p s = Ok tt s' /\
    bufDescTable s' !! N.to_nat frame = Some (clear d) /\
    hashTable s' !! (f, p) = None /\
    calls s' = (calls s ++ [DeletePage f p])%list.
Proof.
  intros Hidx Hd _. eexists. split; [eapply disposePage_hit; eauto|]. simpl.
  split; [eapply lookup_updated; eauto|]. split; [apply lookup_delete_eq|reflexivity].
Qed.

(** ** The properties at concrete pools *)

(** C3, the claim as stated fails: in a pool where frame 0 of "f" is dirty
    and frame 1 of "f" is pinned, [flushFile] throws [PagePinnedException]
    after it has written frame 0 back, dropped it from the index and reset
    it. *)
Lemma flushFile_partial_flush :
  reachable blank_readPage counting_allocatePage pool2_dirty_then_pinned /\
  (exists i d, bufDescTable pool2_dirty_then_pinned !! i = Some d /\ violates "f" d) /\
  (exists s', flushFile "f" pool2_dirty_then_pinned =
                Raise (PagePinnedException "Page is pinned" 1 1) s' /\
     bufDescTable pool2_dirty_then_pinned !! 0%nat = Some (resident "f" 2 0 0 true true) /\
     bufDescTable s' !! 0%nat = Some (clear (resident "f" 2 0 0 true true)) /\
     hashTable pool2_dirty_then_pinned !! ("f", 2) = Some 0 /\
     hashTable s' !! ("f", 2) = None /\
     calls s' = (calls pool2_dirty_then_pinned ++ [WritePage "f" (mkPage 2 "")])%list) /\
  ~ (exists e s', flushFile "f" pool2_dirty_then_pinned = Raise e s' /\
       bufDescTable s' = bufDescTable pool2_dirty_then_pinned /\
       hashTable s' = hashTable pool2_dirty_then_pinned /\
       calls s' = calls pool2_dirty_then_pinned).
Proof.
  split; [exact pool2_dirty_then_pinned_reachable|]. split; [|split].
  - exists 1%nat, (resident "f" 1 1 1 false false).
    split; [reflexivity|]. split; [reflexivity|left; discriminate].
  - eexists. split; [vm_compute; reflexivity|]. repeat split.
  - intros (e & s' & Hrun & Ht & _). vm_compute in Hrun.
    injection Hrun as _ <-. discriminate Ht.
Qed.

(** C3, the amended statement at that pool: the flush stops at frame 1,
    pinned, and leaves it as it was; frame 0 has been written back, dropped
    from the index and reset, and the index entry of page 1 is as it was. *)
Lemma flushFile_stops_at_first_violation_witness :
  sized pool2_dirty_then_pinned /\
  (exists i d, bufDescTable pool2_dirty_then_pinned !! i = Some d /\ violates "f" d) /\
  exists s',
    flushFile "f" pool2_dirty_then_pinned =
      Raise (violation 1 (resident "f" 1 1 1 false false)) s' /\
    bufDescTable s' !! 1%nat = Some (resident "f" 1 1 1 false false) /\
    bufDescTable s' !! 0%nat = Some (clear (resident "f" 2 0 0 true true)) /\
    bufPool s' = bufPool pool2_dirty_then_pinned /\
    calls s' = (calls pool2_dirty_then_pinned ++ [WritePage "f" (mkPage 2 "")])%list /\
    hashTable s' !! ("f", 2) = None /\
    hashTable s' !! ("f", 1) = Some 1 /\
    s' <> pool2_dirty_then_pinned.
Proof.
  assert (Hs : sized pool2_dirty_then_pinned) by (split; reflexivity).
  assert (Hv : exists i d, bufDescTable pool2_dirty_then_pinned !! i = Some d /\
                           violates "f" d).
  { exists 1%nat, (resident "f" 1 1 1 false false).
    split; [reflexivity|]. split; [reflexivity|left; discriminate]. }
  split; [exact Hs|]. split; [exact Hv|].
  destruct (flushFile_stops_at_first_violation "f" pool2_dirty_then_pinned Hs Hv)
    as (k & d & s' & Hk & Hvk & _ & Hrun & _ & Hrest & Hin & Hp & Hcalls & Hgone & Hkeep & Hiff).
  assert (Hk1 : k = 1%nat).
  { destruct k as [|[|k]]; [|reflexivity|discriminate Hk].
    injection Hk as <-. destruct Hvk as [_ [Hpin|Hval]]; [now elim Hpin|discriminate Hval]. }
  subst k. injection Hk as <-.
  exists s'. split; [exact Hrun|].
  split; [exact (Hrest 1%nat (le_n 1))|].
  split; [exact (Hin 0%nat _ Nat.lt_0_1 eq_refl)|].
  split; [exact Hp|]. split; [exact Hcalls|].
  split; [exact (Hgone 0%nat _ Nat.lt_0_1 eq_refl eq_refl)|].
  split.
  - rewrite Hkeep; [reflexivity|].
    intros [|j] dj Hj Hdj _; [injection Hdj as <-; discriminate|lia].
  - intros Heq. apply (proj1 Hiff Heq 0%nat _ Nat.lt_0_1 eq_refl). reflexivity.
Defined.

(** C4 at the one-frame pool whose page was unpinned: the frame handed out
    is valid and its pin count is 0. *)
Lemma allocBuf_victim_unpinned_witness :
  reachable blank_readPage counting_allocatePage pool1_unpinned /\
  allocBuf pool1_unpinned =
    Ok 0 (with_bufDescTable [resident "f" 1 0 0 false false] pool1_unpinned) /\
  exists d, bufDescTable pool1_unpinned !! N.to_nat 0 = Some d /\
            (valid d = true -> pinCnt d = 0%Z).
Proof.
  assert (Ha : allocBuf pool1_unpinned =
               Ok 0 (with_bufDescTable [resident "f" 1 0 0 false false] pool1_unpinned))
    by (vm_compute; reflexivity).
  split; [exact pool1_unpinned_reachable|]. split; [exact Ha|].
  exact (allocBuf_victim_unpinned _ _ _ _ _ pool1_unpinned_reachable Ha).
Defined.

(** C7 at the one-frame pool: unpinning the pinned page with
    [markDirty = true] leaves pin count 0 and the dirty bit set; unpinning it
    once more throws and changes nothing. *)
Lemma unPinPage_resident_witness :
  hashTable pool1_pinned !! ("f", 1) = Some 0 /\
  bufDescTable pool1_pinned !! N.to_nat 0 = Some (resident "f" 1 0 1 false true) /\
  unPinPage "f" 1 true pool1_pinned =
    Ok tt (with_bufDescTable [resident "f" 1 0 0 true true] pool1_pinned) /\
  unPinPage "f" 1 false pool1_unpinned =
    Raise (PageNotPinnedException "f" 1 0) pool1_unpinned.
Proof.
  assert (Hidx : hashTable pool1_pinned !! ("f", 1) = Some 0) by (vm_compute; reflexivity).
  assert (Hd : bufDescTable pool1_pinned !! N.to_nat 0 = Some (resident "f" 1 0 1 false true))
    by reflexivity.
  split; [exact Hidx|]. split; [exact Hd|]. split.
  - apply (proj2 (unPinPage_resident "f" 1 true pool1_pinned 0 _ Hidx Hd)). discriminate.
  - apply (proj1 (unPinPage_resident "f" 1 false pool1_unpinned 0
                    (resident "f" 1 0 0 false true) Hidx eq_refl)). reflexivity.
Defined.

(** C8 at the one-frame pool holding page 1. *)
Lemma disposePage_spec_witness :
  (forall frame, hashTable pool1_pinned !! ("f", 1) = Some frame ->
                 is_Some (bufDescTable pool1_pinned !! N.to_nat frame)) /\
  exists s', disposePage "f" 1 pool1_pinned = Ok tt s' /\
    calls s' = [ReadPage "f" 1; DeletePage "f" 1] /\
    hashTable s' !! ("f", 1) = None.
Proof.
  assert (Hrange : forall frame, hashTable pool1_pinned !! ("f", 1) = Some frame ->
                     is_Some (bufDescTable pool1_pinned !! N.to_nat frame)).
  { intros frame H. vm_compute in H. injection H as <-. eexists. reflexivity. }
  split; [exact Hrange|].
  destruct (disposePage_spec "f" 1 pool1_pinned Hrange) as (s' & Hrun & Hcalls & Hidx & _).
  exists s'. auto.
Defined.

(** C9, the claim as stated fails: on a new pool, where no page is indexed,
    [unPinPage] returns normally. *)
Lemma unPinPage_absent_not_surfaced :
  hashTable (BufMgr_new 1) !! ("f", 1) = None /\
  unPinPage "f" 1 false (BufMgr_new 1) =
    Ok tt (with_cerr ["Hash not found while unpinning page!"] (BufMgr_new 1)) /\
  ~ (exists e s', unPinPage "f" 1 false (BufMgr_new 1) = Raise e s').
Proof.
  split; [vm_compute; reflexivity|]. split; [vm_compute; reflexivity|].
  intros (e & s' & H). vm_compute in H. discriminate H.
Qed.

(** C9, the amended statement on a new pool. *)
Lemma unPinPage_absent_witness :
  hashTable (BufMgr_new 1) !! ("f", 1) = None /\
  unPinPage "f" 1 true (BufMgr_new 1) =
    Ok tt (with_cerr ["Hash not found while unpinning page!"] (BufMgr_new 1)).
Proof.
  assert (H : hashTable (BufMgr_new 1) !! ("f", 1) = None) by (vm_compute; reflexivity).
  split; [exact H|]. exact (unPinPage_absent "f" 1 true (BufMgr_new 1) H).
Defined.

(** C10 at the one-frame pool holding page 1, pinned once. *)
Lemma disposePage_pinned_witness :
  hashTable pool1_pinned !! ("f", 1) = Some 0 /\
  bufDescTable pool1_pinned !! N.to_nat 0 = Some (resident "f" 1 0 1 false true) /\
  (0 < pinCnt (resident "f" 1 0 1 false true))%Z /\
  exists s', disposePage "f" 1 pool1_pinned = Ok tt s' /\
    bufDescTable s' !! N.to_nat 0 = Some (clear (resident "f" 1 0 1 false true)) /\
    hashTable s' !! ("f", 1) = None /\
    calls s' = (calls pool1_pinned ++ [DeletePage "f" 1])%list.
Proof.
  assert (Hidx : hashTable pool1_pinned !! ("f", 1) = Some 0) by (vm_compute; reflexivity).
  assert (Hd : bufDescTable pool1_pinned !! N.to_nat 0 = Some (resident "f" 1 0 1 false true))
    by reflexivity.
  assert (Hpin : (0 < pinCnt (resident "f" 1 0 1 false true))%Z) by reflexivity.
  split; [exact Hidx|]. split; [exact Hd|]. split; [exact Hpin|].
  exact (disposePage_pinned "f" 1 pool1_pinned 0 _ Hidx Hd Hpin).
Defined.

(** * Further properties of the code *)

(** ** A new pool *)

Lemma BufMgr_new_lookup bufs i :
  (i < N.to_nat bufs)%nat ->
  bufDescTable (BufMgr_new bufs) !! i =
    Some {| file := None; pageNo := INVALID_NUMBER; frameNo := N.of_nat i;
            pinCnt := 0; dirty := false; valid := false; refbit := false |}.
Proof.
  intros Hi. simpl. change (map ?g ?l) with (g <$> l).
  rewrite list_lookup_fmap, lookup_seq_lt by exact Hi. reflexivity.
Qed.

Lemma BufMgr_new_clockHand bufs :
  0 < bufs < 2 ^ 32 -> clockHand (BufMgr_new bufs) = bufs - 1.
Proof.
  intros Hb. simpl.
  replace (bufs + 2 ^ 32 - 1) with ((bufs - 1) + 1 * 2 ^ 32) by lia.
  rewrite N.Div0.mod_add. apply N.mod_small. lia.
Qed.

(** The size of the Page Index is odd. *)
Lemma HASHTABLE_SZ_odd bufs htSize : HASHTABLE_SZ bufs = Some htSize -> Z.odd htSize = true.
Proof.
  unfold HASHTABLE_SZ. destruct (int_of_double _) as [x|]; [|discriminate].
  intros [= <-]. rewrite Z.odd_add. rewrite <- (Z.bit0_odd (Z.land x (-2))).
  rewrite Z.land_spec. simpl. now rewrite andb_false_r.
Qed.

Lemma BufMgr_BufMgr_inv bufs s :
  BufMgr_BufMgr bufs = Some s -> constructible bufs = true /\ s = BufMgr_new bufs.
Proof.
  unfold BufMgr_BufMgr. destruct (constructible bufs); [|discriminate].
  now intros [= <-].
Qed.

(** Every pool of at least one frame that the constructor builds is among
    the pools [reachable] starts from. *)
Lemma BufMgr_BufMgr_reachable rr ar bufs s :
  0 < bufs < 2 ^ 32 -> BufMgr_BufMgr bufs = Some s -> reachable rr ar s.
Proof. intros Hb H. apply BufMgr_BufMgr_inv in H as [_ ->]. now apply reachable_new. Qed.

(** The constructor goes through for the sizes of the worked pools, and
    [HASHTABLE_SZ] is defined up to 1789569706 frames and no further. *)
Remark constructible_sizes :
  BufMgr_BufMgr 0 = Some (BufMgr_new 0) /\
  BufMgr_BufMgr 1 = Some (BufMgr_new 1) /\
  BufMgr_BufMgr 2 = Some (BufMgr_new 2) /\
  HASHTABLE_SZ 5 = Some 7%Z /\
  constructible 1789569706 = true /\
  HASHTABLE_SZ 1789569707 = None /\
  constructible (2 ^ 31) = false /\
  constructible (2 ^ 32 - 1) = false.
Proof. repeat split; vm_compute; reflexivity. Qed.

(** X1.  When the constructor goes through for a pool of at least one
    frame, the Page Index has been given an odd, positive number of
    buckets, and the pool is well formed: its index is empty and agrees with
    the descriptor table, every frame is numbered by its slot, free, not
    pinned and clean, and the clock hand is on the last frame. *)
Theorem BufMgr_BufMgr_spec bufs s :
  0 < bufs < 2 ^ 32 ->
  BufMgr_BufMgr bufs = Some s ->
  (exists htSize, HASHTABLE_SZ (int_of_uint32 bufs) = Some htSize /\
                  (0 < htSize)%Z /\ Z.odd htSize = true) /\
  numBufs s = bufs /\
  wf s /\
  index_consistent s /\
  hashTable s = ∅ /\
  clockHand s = bufs - 1 /\
  length (bufDescTable s) = N.to_nat bufs /\
  forall i d, bufDescTable s !! i = Some d ->
    frameNo d = N.of_nat i /\ valid d = false /\ pinCnt d = 0%Z /\ dirty d = false.
Proof.
  intros Hb H. apply BufMgr_BufMgr_inv in H as [Hc ->].
  assert (Hfree : forall i d, bufDescTable (BufMgr_new bufs) !! i = Some d ->
            frameNo d = N.of_nat i /\ valid d = false /\ pinCnt d = 0%Z /\ dirty d = false).
  { intros i d Hi. pose proof (lookup_lt_Some _ _ _ Hi) as Hlt.
    simpl in Hlt. rewrite length_map, length_seq in Hlt.
    rewrite (BufMgr_new_lookup bufs i Hlt) in Hi. now injection Hi as <-. }
  split.
  { unfold constructible in Hc.
    destruct (HASHTABLE_SZ (int_of_uint32 bufs)) as [htSize|] eqn:Hsz; [|discriminate].
    exists htSize. split; [reflexivity|]. split; [now apply Z.ltb_lt|].
    exact (HASHTABLE_SZ_odd _ _ Hsz). }
  split; [reflexivity|].
  split; [now apply wf_BufMgr_new|]. split; [|split; [reflexivity|split; [|split]]].
  - intros f p. split.
    + intros frame H. simpl in H. now rewrite lookup_empty in H.
    + intros (frame & d & Hd & Hv & _). apply Hfree in Hd as (_ & Hd & _). congruence.
  - now apply BufMgr_new_clockHand.
  - simpl. now rewrite length_map, length_seq.
  - exact Hfree.
Qed.

(** X2.  The first [allocBuf] on a pool of at least one frame that the
    constructor has built hands out the last frame and leaves the pool as it
    was. *)
Theorem allocBuf_on_new_pool bufs s :
  0 < bufs < 2 ^ 32 ->
  BufMgr_BufMgr bufs = Some s ->
  allocBuf s = Ok (bufs - 1) s.
Proof.
  intros Hb H. apply BufMgr_BufMgr_inv in H as [_ ->]. unfold allocBuf, bind, gets.
  replace (N.to_nat (numBufs (BufMgr_new bufs)) + 2)%nat
    with (S (N.to_nat bufs + 1)) by (simpl; lia).
  rewrite allocBuf_loop_unfold.
  rewrite BufMgr_new_clockHand by exact Hb.
  change (numBufs (BufMgr_new bufs)) with bufs.
  destruct (N.leb_spec 0 bufs) as [_|?]; [|lia].
  rewrite BufMgr_new_lookup by lia. simpl. unfold ret. do 2 f_equal. lia.
Qed.

(** X3.  A pool of no frame at all: the clock hand wraps to [2^32 - 1] and
    every request that needs a frame indexes the empty descriptor table. *)
Theorem empty_pool_undefined :
  clockHand (BufMgr_new 0) = 2 ^ 32 - 1 /\
  allocBuf (BufMgr_new 0) = Undef /\
  (forall rr f p page, readPage rr f p page (BufMgr_new 0) = Undef) /\
  (forall ar f, allocPage ar f (BufMgr_new 0) = Undef).
Proof.
  assert (Ha : allocBuf (BufMgr_new 0) = Undef) by reflexivity.
  split; [reflexivity|]. split; [exact Ha|]. split.
  - intros rr f p page. unfold readPage. unfold try_catch at 1.
    unfold bind at 1. unfold hashTable_lookup at 1.
    change (hashTable (BufMgr_new 0)) with (∅ : gmap (string * N) N).
    rewrite lookup_empty. cbn [is_HashNotFound]. unfold try_catch, bind at 1.
    now rewrite Ha.
  - intros ar f. unfold allocPage, bind at 1. now rewrite Ha.
Qed.

(** ** advanceClock *)

(** X4.  With the hand on a frame of the pool, [advanceClock] moves it to
    the next frame, from the last frame back to frame 0, and changes nothing
    else; on a pool of no frame it is undefined. *)
Theorem advanceClock_next s :
  (clockHand s < numBufs s -> numBufs s < 2 ^ 32 ->
   advanceClock s =
     Ok tt (with_clockHand (if clockHand s + 1 =? numBufs s then 0 else clockHand s + 1) s)) /\
  (numBufs s = 0 -> advanceClock s = Undef).
Proof.
  split.
  - intros Hh Hn. rewrite advanceClock_run by lia. do 2 f_equal.
    unfold wrap32. rewrite (N.mod_small (clockHand s + 1)) by lia.
    destruct (N.eqb_spec (clockHand s + 1) (numBufs s)) as [->|Hne].
    + apply N.Div0.mod_same.
    + apply N.mod_small. lia.
  - intros H0. unfold advanceClock. now rewrite H0.
Qed.

(** ** The sweep, further *)

(** X5.  As long as [numBufs + 1] fits the 32-bit visit counter, the loop
    of [allocBuf] ends within [numBufs + 2] tests of its condition: the
    call never runs out of fuel, and any larger fuel gives the same
    outcome. *)
Theorem allocBuf_sweep_ends s fuel :
  numBufs s + 1 < 2 ^ 32 ->
  (N.to_nat (numBufs s) + 2 <= fuel)%nat ->
  allocBuf s <> Timeout /\
  allocBuf_loop fuel 0 s = allocBuf_loop (N.to_nat (numBufs s) + 2) 0 s /\
  allocBuf_loop fuel 0 s <> Timeout.
Proof.
  intros Hb Hf.
  assert (Hend : allocBuf_loop (N.to_nat (numBufs s) + 2) 0 s <> Timeout)
    by (apply allocBuf_loop_terminates; lia).
  assert (Heq : allocBuf_loop fuel 0 s = allocBuf_loop (N.to_nat (numBufs s) + 2) 0 s)
    by (apply allocBuf_loop_fuel; assumption).
  split; [|split; [exact Heq|now rewrite Heq]].
  unfold allocBuf, bind, gets.
  destruct (allocBuf_loop _ _ _) as [[fr|] s1|e s1| |]; try discriminate.
  now destruct Hend.
Qed.

Lemma refbit_cleared_same (t : list BufDesc) i d :
  t !! i = Some d ->
  with_refbit false <$> <[i := with_refbit false d]> t = with_refbit false <$> t.
Proof.
  intros Hi. rewrite list_fmap_insert. apply list_insert_id.
  rewrite list_lookup_fmap, Hi. reflexivity.
Qed.

Lemma allocBuf_loop_exhausted fuel : forall frame_count s s',
  allocBuf_loop fuel frame_count s = Ok Exhausted s' ->
  hashTable s' = hashTable s /\ calls s' = calls s /\
  with_refbit false <$> bufDescTable s' = with_refbit false <$> bufDescTable s.
Proof.
  induction fuel as [|fuel IH]; intros frame_count s s' H; [discriminate|].
  rewrite allocBuf_loop_unfold in H.
  destruct (frame_count <=? numBufs s); [|now injection H as <-].
  destruct (bufDescTable s !! N.to_nat (clockHand s)) as [d|] eqn:Hd; [|discriminate].
  destruct (valid d); simpl in H; [|discriminate].
  destruct (refbit d).
  - unfold bind at 1 in H.
    destruct (advanceClock _) as [[] s1| | |] eqn:Ha in H; try discriminate.
    apply advanceClock_inv in Ha. subst s1.
    apply IH in H as (Hh & Hc & Ht). simpl in *.
    rewrite Ht. split; [exact Hh|]. split; [exact Hc|]. now apply refbit_cleared_same.
  - destruct (pinCnt d =? 0)%Z.
    + destruct (dirty d); [|discriminate].
      apply (dirty_victim_inv _ _ _ _ Hd) in H as (f & pg & _ & _ & [=] & _).
    + unfold bind at 1 in H.
      destruct (advanceClock _) as [[] s1| | |] eqn:Ha in H; try discriminate.
      apply advanceClock_inv in Ha. subst s1.
      now apply IH in H.
Qed.

(** X6.  The only exception [allocBuf] throws is
    [BufferExceededException], and a call that throws has evicted nothing:
    index, Page Store, buffers and counters are as they were, and the
    descriptors differ from what they were in their reference bits only. *)
Theorem allocBuf_failure_evicts_nothing s e s' :
  allocBuf s = Raise e s' ->
  e = BufferExceededException /\
  hashTable s' = hashTable s /\ calls s' = calls s /\
  bufPool s' = bufPool s /\ bufStats s' = bufStats s /\
  with_refbit false <$> bufDescTable s' = with_refbit false <$> bufDescTable s.
Proof.
  intros H. split; [now apply allocBuf_raise in H|].
  destruct (allocBuf_untouched s s') as (_ & Hp & Hs & _); [now rewrite H|].
  unfold allocBuf, bind, gets in H.
  destruct (allocBuf_loop _ _ _) as [[fr|] s1|e1 s1| |] eqn:E; try discriminate.
  - unfold throw in H. injection H as _ <-.
    apply allocBuf_loop_exhausted in E as (Hh & Hc & Ht). auto.
  - now apply allocBuf_loop_no_raise in E.
Qed.

(** X7.  In a well-formed pool all of whose frames are valid and pinned,
    [allocBuf] throws [BufferExceededException]; the index and the Page
    Store are as they were and every frame is still valid and pinned. *)
Theorem allocBuf_pool_full s :
  wf s -> numBufs s + 1 < 2 ^ 32 ->
  (forall i d, bufDescTable s !! i = Some d -> valid d = true /\ pinCnt d <> 0%Z) ->
  exists s', allocBuf s = Raise BufferExceededException s' /\
    hashTable s' = hashTable s /\ calls s' = calls s /\
    (forall i d, bufDescTable s' !! i = Some d -> valid d = true /\ pinCnt d <> 0%Z).
Proof.
  intros Hwf Hb Hall.
  destruct (allocBuf_loop_all_pinned (N.to_nat (numBufs s) + 2) 0 s)
    as (s' & Hrun); try assumption; try lia.
  exists s'. split; [unfold allocBuf, bind, gets; now rewrite Hrun|].
  apply allocBuf_loop_exhausted in Hrun as (Hh & Hc & Ht).
  split; [exact Hh|]. split; [exact Hc|].
  intros i d Hd.
  assert (Hi : (with_refbit false <$> bufDescTable s') !! i = Some (with_refbit false d))
    by (now rewrite list_lookup_fmap, Hd).
  rewrite Ht, list_lookup_fmap in Hi.
  destruct (bufDescTable s !! i) as [d0|] eqn:Hd0; [|discriminate].
  injection Hi as Hi. destruct (Hall _ _ Hd0) as [Hv Hp].
  destruct d, d0. unfold with_refbit in Hi. simpl in *. subst. auto.
Qed.

(** X8.  In a well-formed pool that has a frame which is free, or valid with
    pin count 0 and reference bit clear, [allocBuf] returns a frame, and the
    frame it returns is free or not pinned. *)
Theorem allocBuf_succeeds s j d :
  wf s -> numBufs s + 1 < 2 ^ 32 ->
  bufDescTable s !! N.to_nat j = Some d ->
  valid d = false \/ (refbit d = false /\ pinCnt d = 0%Z) ->
  exists frame s' d',
    allocBuf s = Ok frame s' /\
    bufDescTable s !! N.to_nat frame = Some d' /\
    (valid d' = true -> pinCnt d' = 0%Z).
Proof.
  intros Hwf Hb Hj Hd.
  destruct (allocBuf_finds_claimable s j d Hwf Hb Hj Hd) as (frame & s' & H).
  pose proof (allocBuf_inv _ _ _ H) as Hl.
  apply allocBuf_loop_claim in Hl as (d' & Hd' & Hpin); [|apply Hwf].
  now exists frame, s', d'.
Qed.

Lemma allocBuf_loop_dirty_victim fuel : forall frame_count s frame s' d,
  numbered s ->
  allocBuf_loop fuel frame_count s = Ok (Claimed frame) s' ->
  bufDescTable s !! N.to_nat frame = Some d ->
  valid d = true -> dirty d = true ->
  exists f pg, file d = Some f /\ bufPool s !! N.to_nat frame = Some pg /\
    calls s' = (calls s ++ [WritePage f pg])%list /\
    hashTable s' = delete (f, pageNo d) (hashTable s) /\
    bufDescTable s' !! N.to_nat frame = Some (clear d).
Proof.
  induction fuel as [|fuel IH]; intros frame_count s frame s' d Hn H Hd Hv Hc;
    [discriminate|].
  rewrite allocBuf_loop_unfold in H.
  destruct (frame_count <=? numBufs s); [|discriminate].
  destruct (bufDescTable s !! N.to_nat (clockHand s)) as [d0|] eqn:Hd0; [|discriminate].
  pose proof (Hn _ _ Hd0) as Hno.
  assert (Hhere : frameNo d0 = clockHand s) by lia.
  destruct (valid d0) eqn:Hv0; simpl in H.
  - destruct (refbit d0) eqn:Hr.
    + unfold bind at 1 in H.
      destruct (advanceClock _) as [[] s1| | |] eqn:Ha in H; try discriminate.
      apply advanceClock_inv in Ha. subst s1.
      assert (Hn1 : numbered
                (with_clockHand (wrap32 (clockHand s + 1) mod numBufs s)
                   (with_bufDescTable
                      (<[N.to_nat (clockHand s) := with_refbit false d0]> (bufDescTable s)) s))).
      { intros i di. simpl. apply numbered_update with (d := d0); auto. }
      destruct (decide (N.to_nat frame = N.to_nat (clockHand s))) as [Heq|Hne].
      * rewrite Heq, Hd0 in Hd. injection Hd as ->.
        destruct (IH _ _ _ _ (with_refbit false d) Hn1 H) as (f & pg & Hf & Hpg & Hrest);
          [simpl; rewrite Heq; eapply lookup_updated; eauto|exact Hv|exact Hc|].
        destruct Hrest as (Hcalls & Hh & Hdesc).
        exists f, pg. simpl in *. rewrite Heq. rewrite Heq in Hpg, Hdesc.
        repeat split; assumption.
      * destruct (IH _ _ _ _ d Hn1 H) as (f & pg & Hf & Hpg & Hrest);
          [simpl; rewrite list_lookup_insert_ne by congruence; exact Hd
          |exact Hv|exact Hc|].
        destruct Hrest as (Hcalls & Hh & Hdesc).
        exists f, pg. simpl in *. repeat split; assumption.
    + destruct (pinCnt d0 =? 0)%Z eqn:Hp.
      * destruct (dirty d0) eqn:Hdirty.
        -- apply (dirty_victim_inv _ _ _ _ Hd0) in H as (f & pg & Hf & Hpg & [= ->] & ->).
           rewrite Hhere in Hd |- *. rewrite Hd0 in Hd. injection Hd as <-.
           exists f, pg. simpl. repeat split; auto. eapply lookup_updated; eauto.
        -- injection H as <- <-. rewrite Hhere, Hd0 in Hd. congruence.
      * unfold bind at 1 in H.
        destruct (advanceClock _) as [[] s1| | |] eqn:Ha in H; try discriminate.
        apply advanceClock_inv in Ha. subst s1.
        eapply IH in H; eauto.
  - injection H as <- _. rewrite Hhere, Hd0 in Hd. congruence.
Qed.

(** X9.  When the frame [allocBuf] hands out held a valid dirty page, that
    page has been written back to its file exactly once, as the only call
    made on the Page Store; its index entry is gone and the descriptor is
    reset. *)
Theorem allocBuf_dirty_victim s frame s' d :
  numbered s ->
  allocBuf s = Ok frame s' ->
  bufDescTable s !! N.to_nat frame = Some d ->
  valid d = true -> dirty d = true ->
  exists f pg, file d = Some f /\ bufPool s !! N.to_nat frame = Some pg /\
    calls s' = (calls s ++ [WritePage f pg])%list /\
    hashTable s' = delete (f, pageNo d) (hashTable s) /\
    bufDescTable s' !! N.to_nat frame = Some (clear d).
Proof.
  intros Hn H. apply allocBuf_inv in H. eapply allocBuf_loop_dirty_victim; eauto.
Qed.

(** ** Pages coming into the pool *)

(** The frame [allocBuf] returns is a slot of both tables, before and after
    the call. *)
Lemma allocBuf_frame_in_range s frame s1 :
  wf s -> allocBuf s = Ok frame s1 ->
  wf s1 /\
  exists d pg, bufDescTable s1 !! N.to_nat frame = Some d /\
               frameNo d = frame /\
               bufPool s1 !! N.to_nat frame = Some pg.
Proof.
  intros Hwf H.
  assert (Hwf1 : wf s1) by (apply (wf_allocBuf s Hwf); now rewrite H).
  split; [exact Hwf1|].
  destruct (allocBuf_untouched s s1) as (Hnum & _); [now rewrite H|].
  apply allocBuf_inv in H.
  apply allocBuf_loop_claim in H as (d0 & Hd0 & _); [|apply Hwf].
  apply lookup_lt_Some in Hd0.
  destruct Hwf as (_ & [Hlen _] & _). destruct Hwf1 as (Hn1 & [Hlen1 Hpool1] & _).
  destruct (lookup_lt_is_Some_2 (bufDescTable s1) (N.to_nat frame)) as [d Hd]; [lia|].
  destruct (lookup_lt_is_Some_2 (bufPool s1) (N.to_nat frame)) as [pg Hpg]; [lia|].
  exists d, pg. split; [exact Hd|]. split; [|exact Hpg].
  rewrite (Hn1 _ _ Hd). lia.
Qed.

Lemma pool_updated (t : list Page) i pg pg' :
  t !! i = Some pg -> <[i := pg']> t !! i = Some pg'.
Proof. intros H. apply list_lookup_insert_eq. eapply lookup_lt_Some; eauto. Qed.

Section Incoming.

Variable readPage_reply : list StoreCall -> File -> PageId -> Page.
Variable allocatePage_reply : list StoreCall -> File -> Page.

Lemma allocPage_claimed f s frame s1 d pg :
  allocBuf s = Ok frame s1 ->
  bufDescTable s1 !! N.to_nat frame = Some d ->
  bufPool s1 !! N.to_nat frame = Some pg ->
  allocPage allocatePage_reply f s =
    Ok (page_number (allocatePage_reply (calls s1) f), Some frame)
       (with_hashTable
          (<[(f, page_number (allocatePage_reply (calls s1) f)) := frame]> (hashTable s1))
          (with_bufDescTable
             (<[N.to_nat frame := Set_ f (page_number (allocatePage_reply (calls s1) f)) d]>
                (bufDescTable s1))
             (with_bufStats {| accesses := accesses (bufStats s1) + 1;
                               diskreads := diskreads (bufStats s1) |}
                (with_bufPool (<[N.to_nat frame := allocatePage_reply (calls s1) f]> (bufPool s1))
                   (with_calls (calls s1 ++ [AllocatePage f]) s1))))).
Proof.
  intros Halloc Hd Hpg. unfold allocPage. unfold bind at 1. rewrite Halloc.
  unfold bind, file_allocatePage, set_pool, incr_accesses, update_desc, hashTable_insert, ret.
  simpl. rewrite Hpg. simpl. now rewrite Hd.
Qed.

(** X10.  A [readPage] that finds the page in the index returns a pointer
    into that frame, sets the reference bit, adds one to the pin count and
    to the access counter, and does nothing else: no call on the Page Store,
    no change of index or buffers. *)
Theorem readPage_hit_effect f p page s frame d pg :
  hashTable s !! (f, p) = Some frame ->
  bufDescTable s !! N.to_nat frame = Some d ->
  bufPool s !! N.to_nat frame = Some pg ->
  exists s', readPage readPage_reply f p page s = Ok (Some frame) s' /\
    bufDescTable s' = <[N.to_nat frame := with_pinCnt (pinCnt d + 1) (with_refbit true d)]>
                        (bufDescTable s) /\
    accesses (bufStats s') = (accesses (bufStats s) + 1)%Z /\
    diskreads (bufStats s') = diskreads (bufStats s) /\
    hashTable s' = hashTable s /\ bufPool s' = bufPool s /\
    calls s' = calls s /\ cerr s' = cerr s /\ clockHand s' = clockHand s.
Proof.
  intros Hidx Hd Hpg. eexists. split; [eapply readPage_hit; eauto|].
  simpl. repeat split.
Qed.


(** X12.  Reading a page twice in a row: when the first [readPage] misses
    and is given a frame, the second one hits, returns the same frame and
    leaves its pin count at 2, without a second read from the Page Store. *)
Theorem readPage_twice f p page page' s frame s1 :
  wf s ->
  hashTable s !! (f, p) = None ->
  allocBuf s = Ok frame s1 ->
  exists s' s'',
    readPage readPage_reply f p page s = Ok (Some frame) s' /\
    readPage readPage_reply f p page' s' = Ok (Some frame) s'' /\
    bufDescTable s'' !! N.to_nat frame = Some (resident f p frame 2 false true) /\
    bufPool s'' = bufPool s' /\ calls s'' = calls s' /\
    diskreads (bufStats s'') = diskreads (bufStats s').
Proof.
  intros Hwf Hidx Halloc.
  destruct (allocBuf_frame_in_range s frame s1 Hwf Halloc) as (Hwf1 & d & pg & Hd & Hno & Hpg).
  pose proof (readPage_miss_claimed readPage_reply f p page s frame s1 d pg
                Hidx Halloc Hd Hpg) as Hrun.
  eexists. eexists. split; [exact Hrun|].
  split.
  - eapply readPage_hit; simpl.
    + apply lookup_insert_eq.
    + eapply lookup_updated; eauto.
    + eapply pool_updated; eauto.
  - simpl. split; [|repeat split].
    rewrite list_insert_insert_eq, (lookup_updated _ _ _ _ Hd).
    unfold Set_, resident, with_pinCnt, with_refbit. simpl. now rewrite Hno.
Qed.

(** X13.  Pinning and unpinning undo each other: on a resident page whose
    pin count is not negative, a [readPage] followed by an [unPinPage] leaves
    the pin count as it was; the frame has its reference bit set, is dirty if
    it was or if [markDirty] is true, and the access counter is one more. *)
Theorem readPage_unPinPage f p page markDirty s frame d pg :
  hashTable s !! (f, p) = Some frame ->
  bufDescTable s !! N.to_nat frame = Some d ->
  bufPool s !! N.to_nat frame = Some pg ->
  (0 <= pinCnt d)%Z ->
  exists s',
    readPage readPage_reply f p page s = Ok (Some frame) s' /\
    unPinPage f p markDirty s' =
      Ok tt (with_bufStats {| accesses := accesses (bufStats s) + 1;
                              diskreads := diskreads (bufStats s) |}
               (with_bufDescTable
                  (<[N.to_nat frame :=
                       with_dirty (if markDirty then true else dirty d) (with_refbit true d)]>
                     (bufDescTable s)) s)).
Proof.
  intros Hidx Hd Hpg Hpin.
  eexists. split; [eapply readPage_hit; eauto|].
  unfold unPinPage, try_catch, bind, hashTable_lookup. simpl. rewrite Hidx.
  unfold desc_at. simpl. rewrite (lookup_updated _ _ _ _ Hd). simpl.
  destruct (Z.eqb_spec (pinCnt d + 1) 0) as [?|_]; [lia|].
  unfold update_desc. simpl. rewrite (lookup_updated _ _ _ _ Hd). simpl.
  rewrite list_insert_insert_eq.
  replace (pinCnt d + 1 - 1)%Z with (pinCnt d) by lia.
  destruct markDirty.
  - simpl. rewrite (lookup_updated _ _ _ _ Hd). simpl.
    rewrite list_insert_insert_eq. now destruct d.
  - unfold ret. now destruct d.
Qed.

(** X14.  An [allocPage] that is given a frame in a well-formed pool asks
    the Page Store for a new page and returns the number the store gave it
    with a pointer into the frame; the page is in the frame's buffer and in
    the index, the descriptor is valid, pinned once, clean and referenced,
    the access counter is one more than before the call and the disk-read
    counter is as it was. *)
Theorem allocPage_installs f s frame s1 :
  wf s ->
  allocBuf s = Ok frame s1 ->
  exists p s', allocPage allocatePage_reply f s = Ok (p, Some frame) s' /\
    p = page_number (allocatePage_reply (calls s1) f) /\
    hashTable s' !! (f, p) = Some frame /\
    bufDescTable s' !! N.to_nat frame = Some (resident f p frame 1 false true) /\
    bufPool s' !! N.to_nat frame = Some (allocatePage_reply (calls s1) f) /\
    calls s' = (calls s1 ++ [AllocatePage f])%list /\
    accesses (bufStats s') = (accesses (bufStats s) + 1)%Z /\
    diskreads (bufStats s') = diskreads (bufStats s).
Proof.
  intros Hwf Halloc.
  destruct (allocBuf_frame_in_range s frame s1 Hwf Halloc) as (Hwf1 & d & pg & Hd & Hno & Hpg).
  destruct (allocBuf_untouched s s1) as (_ & _ & Hstats & _); [now rewrite Halloc|].
  eexists. eexists. split; [eapply allocPage_claimed; eauto|]. simpl.
  split; [reflexivity|]. split; [apply lookup_insert_eq|].
  split; [rewrite (lookup_updated _ _ _ _ Hd); unfold Set_, resident; now rewrite Hno|].
  split; [eapply pool_updated; eauto|]. rewrite Hstats. repeat split.
Qed.

(** X15.  When [allocBuf] throws, [allocPage] throws the same exception
    at once: no page is allocated in the file, and index, buffers and
    counters are as they were before the call. *)
Theorem allocPage_exceeded f s e s1 :
  allocBuf s = Raise e s1 ->
  allocPage allocatePage_reply f s = Raise BufferExceededException s1 /\
  calls s1 = calls s /\ hashTable s1 = hashTable s /\
  bufPool s1 = bufPool s /\ bufStats s1 = bufStats s.
Proof.
  intros Halloc.
  pose proof (allocBuf_raise _ _ _ Halloc) as ->.
  split; [unfold allocPage, bind at 1; now rewrite Halloc|].
  destruct (allocBuf_untouched s s1) as (_ & Hp & Hs & _); [now rewrite Halloc|].
  unfold allocBuf, bind, gets in Halloc.
  destruct (allocBuf_loop _ _ _) as [[fr|] s2|e1 s2| |] eqn:E; try discriminate.
  - unfold throw in Halloc. injection Halloc as <-.
    apply allocBuf_loop_exhausted in E as (Hh & Hc & _). auto.
  - now apply allocBuf_loop_no_raise in E.
Qed.

End Incoming.

(** ** What every reachable pool satisfies *)

Lemma every_desc_update_desc Q i upd :
  (forall d, Q d -> Q (upd d)) -> keeps (every_desc Q) (update_desc i upd).
Proof.
  intros Hupd s H s'. unfold update_desc.
  destruct (bufDescTable s !! N.to_nat i) as [d|] eqn:E; simpl; [|discriminate].
  intros [= <-] j dj Hj. simpl in Hj.
  destruct (decide (j = N.to_nat i)) as [->|Hne].
  - rewrite (lookup_updated _ _ _ _ E) in Hj. injection Hj as <-. eauto.
  - rewrite list_lookup_insert_ne in Hj by congruence. eauto.
Qed.

Lemma in_range_update_desc i upd : keeps in_range (update_desc i upd).
Proof.
  intros s H s'. unfold update_desc.
  destruct (bufDescTable s !! N.to_nat i) as [d|]; simpl; [|discriminate].
  intros [= <-] key frame Hk. simpl in *. rewrite length_insert. eauto.
Qed.

Lemma in_range_hashTable_remove f p : keeps in_range (hashTable_remove f p).
Proof.
  intros s H s' [= <-] key frame Hk. simpl in *.
  apply lookup_delete_Some in Hk as [_ Hk]. eauto.
Qed.

(** One step through a computation none of whose index insertions is in
    sight, for an invariant on the index and the descriptors. *)
Ltac keeps_tables :=
  lazymatch goal with
  | |- keeps _ (bind _ _) => apply keeps_bind; [|intros ?]
  | |- keeps _ (try_catch _ _ _) => apply keeps_try_catch
  | |- keeps _ (if decide ?Q then _ else _) => destruct (decide Q)
  | |- keeps _ (if _ then _ else _) => apply keeps_if
  | |- keeps _ (match ?r with Claimed _ => _ | Exhausted => _ end) => destruct r
  | |- keeps in_range (update_desc _ _) => apply in_range_update_desc
  | |- keeps in_range (hashTable_remove _ _) => apply in_range_hashTable_remove
  | |- keeps (every_desc pin_nonneg) (update_desc _ _) =>
      apply every_desc_update_desc; intros [] ?; unfold pin_nonneg in *; simpl in *; lia
  | |- keeps _ (ret _) => apply keeps_ret
  | |- keeps _ (throw _) => apply keeps_throw
  | |- keeps _ (gets _) => apply keeps_gets
  | |- keeps _ (desc_at _) => apply keeps_desc_at
  | |- keeps _ (pool_at _) => apply keeps_pool_at
  | |- keeps _ (file_of _) => apply keeps_file_of
  | |- keeps _ (hashTable_lookup _ _) => apply keeps_hashTable_lookup
  | |- keeps _ advanceClock => keeps_untouched advanceClock
  | |- keeps _ (file_writePage _ _) => keeps_untouched file_writePage
  | |- keeps _ (file_deletePage _ _) => keeps_untouched file_deletePage
  | |- keeps _ (file_readPage _ _ _) => keeps_untouched file_readPage
  | |- keeps _ (file_allocatePage _ _) => keeps_untouched file_allocatePage
  | |- keeps _ (set_pool _ _) => keeps_untouched set_pool
  | |- keeps _ incr_accesses => keeps_untouched incr_accesses
  | |- keeps _ incr_diskreads => keeps_untouched incr_diskreads
  | |- keeps _ (log_cerr _) => keeps_untouched log_cerr
  | |- keeps (every_desc _) (hashTable_insert _ _ _) => keeps_untouched hashTable_insert
  | |- keeps (every_desc _) (hashTable_remove _ _) => keeps_untouched hashTable_remove
  end.

Lemma in_range_allocBuf_loop fuel : forall frame_count,
  keeps in_range (allocBuf_loop fuel frame_count).
Proof.
  induction fuel as [|fuel IH]; intros frame_count.
  - intros s _ s'. discriminate.
  - cbn [allocBuf_loop]. repeat first [apply IH | keeps_tables].
Qed.

Lemma in_range_allocBuf : keeps in_range allocBuf.
Proof. unfold allocBuf. repeat first [apply in_range_allocBuf_loop | keeps_tables]. Qed.

Lemma in_range_unPinPage f p b : keeps in_range (unPinPage f p b).
Proof. unfold unPinPage. repeat keeps_tables. Qed.

Lemma in_range_flushFile_loop f todo : forall id, keeps in_range (flushFile_loop f todo id).
Proof.
  induction todo as [|todo IH]; intros id; cbn [flushFile_loop].
  - apply keeps_ret.
  - apply keeps_bind; [unfold flushFile_frame; repeat keeps_tables | intros _; apply IH].
Qed.

Lemma in_range_flushFile f : keeps in_range (flushFile f).
Proof. unfold flushFile. repeat first [apply in_range_flushFile_loop | keeps_tables]. Qed.

Lemma in_range_disposePage f p : keeps in_range (disposePage f p).
Proof. unfold disposePage. repeat keeps_tables. Qed.

Lemma in_range_insert s f p frame d (t' : list BufDesc) :
  in_range s -> bufDescTable s !! N.to_nat frame = Some d ->
  length t' = length (bufDescTable s) ->
  forall key fr, <[(f, p) := frame]> (hashTable s) !! key = Some fr ->
                 (N.to_nat fr < length t')%nat.
Proof.
  intros Hin Hd Hlen key fr Hk. rewrite Hlen.
  apply lookup_insert_Some in Hk as [[_ <-]|[_ Hk]]; [|eauto].
  eapply lookup_lt_Some; eauto.
Qed.

Lemma readPage_outcome rr f p page s :
  wf s -> in_range s ->
  match hashTable s !! (f, p) with
  | Some frame =>
      exists d pg, bufDescTable s !! N.to_nat frame = Some d /\
                   bufPool s !! N.to_nat frame = Some pg
  | None =>
      match allocBuf s with
      | Ok frame s1 => True
      | Raise e s1 => e = BufferExceededException
      | r => readPage rr f p page s = match r with Undef => Undef | _ => Timeout end
      end
  end.
Proof.
  intros Hwf Hin. destruct (hashTable s !! (f, p)) as [frame|] eqn:Hidx.
  - pose proof (Hin _ _ Hidx) as Hlt. destruct Hwf as (_ & [Hlen Hpool] & _).
    destruct (lookup_lt_is_Some_2 (bufDescTable s) (N.to_nat frame)) as [d Hd]; [lia|].
    destruct (lookup_lt_is_Some_2 (bufPool s) (N.to_nat frame)) as [pg Hpg]; [lia|].
    eauto.
  - destruct (allocBuf s) as [frame s1|e s1| |] eqn:Ha; [exact I| | |].
    + eapply allocBuf_raise; eauto.
    + unfold readPage. unfold try_catch at 1. unfold bind at 1.
      unfold hashTable_lookup at 1. rewrite Hidx. simpl.
      unfold try_catch. unfold bind at 1. now rewrite Ha.
    + unfold readPage. unfold try_catch at 1. unfold bind at 1.
      unfold hashTable_lookup at 1. rewrite Hidx. simpl.
      unfold try_catch. unfold bind at 1. now rewrite Ha.
Qed.

Lemma in_range_readPage rr f p page s s' :
  wf s -> in_range s ->
  final (readPage rr f p page s) = Some s' -> in_range s'.
Proof.
  intros Hwf Hin H. pose proof (readPage_outcome rr f p page s Hwf Hin) as Hout.
  destruct (hashTable s !! (f, p)) as [frame|] eqn:Hidx.
  - destruct Hout as (d & pg & Hd & Hpg).
    rewrite (readPage_hit rr f p page s frame d pg Hidx Hd Hpg) in H.
    injection H as <-. intros key fr Hk. simpl in *. rewrite length_insert. eauto.
  - destruct (allocBuf s) as [frame s1|e s1| |] eqn:Ha.
    + destruct (allocBuf_frame_in_range s frame s1 Hwf Ha) as (Hwf1 & d & pg & Hd & Hno & Hpg).
      assert (Hin1 : in_range s1) by (apply (in_range_allocBuf s Hin); now rewrite Ha).
      rewrite (readPage_miss_claimed rr f p page s frame s1 d pg Hidx Ha Hd Hpg) in H.
      injection H as <-. intros key fr. simpl.
      eapply in_range_insert; eauto. apply length_insert.
    + subst e. assert (Hin1 : in_range s1) by (apply (in_range_allocBuf s Hin); now rewrite Ha).
      rewrite (readPage_miss_exceeded rr f p page s s1 Hidx Ha) in H.
      now injection H as <-.
    + rewrite Hout in H. discriminate.
    + rewrite Hout in H. discriminate.
Qed.

Lemma in_range_allocPage ar f s s' :
  wf s -> in_range s ->
  final (allocPage ar f s) = Some s' -> in_range s'.
Proof.
  intros Hwf Hin H.
  destruct (allocBuf s) as [frame s1|e s1| |] eqn:Ha.
  - destruct (allocBuf_frame_in_range s frame s1 Hwf Ha) as (Hwf1 & d & pg & Hd & Hno & Hpg).
    assert (Hin1 : in_range s1) by (apply (in_range_allocBuf s Hin); now rewrite Ha).
    rewrite (allocPage_claimed ar f s frame s1 d pg Ha Hd Hpg) in H.
    injection H as <-. intros key fr. simpl.
    eapply in_range_insert; eauto. apply length_insert.
  - assert (Hin1 : in_range s1) by (apply (in_range_allocBuf s Hin); now rewrite Ha).
    unfold allocPage, bind at 1 in H. rewrite Ha in H. now injection H as <-.
  - unfold allocPage, bind at 1 in H. rewrite Ha in H. discriminate.
  - unfold allocPage, bind at 1 in H. rewrite Ha in H. discriminate.
Qed.

Lemma reachable_wf_in_range rr ar s : reachable rr ar s -> wf s /\ in_range s.
Proof.
  induction 1 as [bufs Hb|s op s' Hr [Hwf Hin] Hstep].
  - split; [now apply wf_BufMgr_new|]. intros key frame Hk. simpl in Hk.
    now rewrite lookup_empty in Hk.
  - split; [eapply wf_exec; eauto|].
    destruct op as [f p page|f p b|f|f|f p]; simpl in Hstep.
    + eapply in_range_readPage; eauto.
    + eapply in_range_unPinPage; eauto.
    + eapply in_range_allocPage; eauto.
    + eapply in_range_flushFile; eauto.
    + eapply in_range_disposePage; eauto.
Qed.

(** X16.  In every reachable pool the frames are numbered by their slot,
    both tables have [numBufs] entries, the clock hand is on a frame, every
    valid frame names its file, and every frame the index names is a slot of
    the pool. *)
Theorem reachable_pool_shape rr ar s :
  reachable rr ar s ->
  numbered s /\ sized s /\ clockHand s < numBufs s /\ named s /\
  (forall key frame, hashTable s !! key = Some frame -> frame < numBufs s).
Proof.
  intros Hr. apply reachable_wf_in_range in Hr as [(Hn & [Hlen Hpool] & Hh & Hf) Hin].
  split; [exact Hn|]. split; [now split|]. split; [exact Hh|]. split; [exact Hf|].
  intros key frame Hk. apply Hin in Hk. lia.
Qed.

(** *** Pin counts *)

Lemma pins_allocBuf_loop fuel : forall frame_count,
  keeps (every_desc pin_nonneg) (allocBuf_loop fuel frame_count).
Proof.
  induction fuel as [|fuel IH]; intros frame_count.
  - intros s _ s'. discriminate.
  - cbn [allocBuf_loop]. repeat first [apply IH | keeps_tables].
Qed.

Lemma pins_allocBuf : keeps (every_desc pin_nonneg) allocBuf.
Proof. unfold allocBuf. repeat first [apply pins_allocBuf_loop | keeps_tables]. Qed.

Lemma pins_readPage rr f p page : keeps (every_desc pin_nonneg) (readPage rr f p page).
Proof. unfold readPage. repeat first [apply pins_allocBuf | keeps_tables]. Qed.

Lemma pins_allocPage ar f : keeps (every_desc pin_nonneg) (allocPage ar f).
Proof. unfold allocPage. repeat first [apply pins_allocBuf | keeps_tables]. Qed.

Lemma pins_flushFile_loop f todo : forall id,
  keeps (every_desc pin_nonneg) (flushFile_loop f todo id).
Proof.
  induction todo as [|todo IH]; intros id; cbn [flushFile_loop].
  - apply keeps_ret.
  - apply keeps_bind; [unfold flushFile_frame; repeat keeps_tables | intros _; apply IH].
Qed.

Lemma pins_flushFile f : keeps (every_desc pin_nonneg) (flushFile f).
Proof. unfold flushFile. repeat first [apply pins_flushFile_loop | keeps_tables]. Qed.

Lemma pins_disposePage f p : keeps (every_desc pin_nonneg) (disposePage f p).
Proof. unfold disposePage. repeat keeps_tables. Qed.

Lemma pins_unPinPage f p b : keeps (every_desc pin_nonneg) (unPinPage f p b).
Proof.
  intros s H s'. unfold unPinPage, try_catch, bind, hashTable_lookup.
  destruct (hashTable s !! (f, p)) as [frame|]; simpl; [|now intros [= <-]].
  unfold desc_at. destruct (bufDescTable s !! N.to_nat frame) as [d|] eqn:Hd; [|discriminate].
  destruct (Z.eqb_spec (pinCnt d) 0) as [Hz|Hnz]; simpl; [now intros [= <-]|].
  pose proof (H _ _ Hd) as Hpin. unfold pin_nonneg in Hpin.
  rewrite (update_desc_run _ _ _ _ Hd).
  assert (Hstep : every_desc pin_nonneg
            (with_bufDescTable
               (<[N.to_nat frame := with_pinCnt (pinCnt d - 1) d]> (bufDescTable s)) s)).
  { apply (every_desc_update_desc pin_nonneg frame (fun _ => with_pinCnt (pinCnt d - 1) d)
             (fun _ _ => ltac:(unfold pin_nonneg; simpl; lia)) s H).
    now rewrite (update_desc_run _ _ _ _ Hd). }
  destruct b; [|now intros [= <-]].
  unfold update_desc. simpl. rewrite (lookup_updated _ _ _ _ Hd). simpl.
  intros [= <-] j dj Hj. simpl in Hj. rewrite list_insert_insert_eq in Hj.
  destruct (decide (j = N.to_nat frame)) as [->|Hne].
  - rewrite (lookup_updated _ _ _ _ Hd) in Hj. injection Hj as <-.
    unfold pin_nonneg. simpl. lia.
  - rewrite list_lookup_insert_ne in Hj by congruence. eauto.
Qed.

(** X17.  In every reachable pool no frame has a negative pin count. *)
Theorem reachable_pins_nonneg rr ar s i d :
  reachable rr ar s ->
  bufDescTable s !! i = Some d -> (0 <= pinCnt d)%Z.
Proof.
  intros Hr. revert i d. change (every_desc pin_nonneg s).
  induction Hr as [bufs Hb|s op s' Hr IH Hstep].
  - intros i d Hd. pose proof (lookup_lt_Some _ _ _ Hd) as Hlt.
    simpl in Hlt. rewrite length_map, length_seq in Hlt.
    rewrite (BufMgr_new_lookup bufs i Hlt) in Hd. injection Hd as <-.
    unfold pin_nonneg. simpl. lia.
  - destruct op as [f p page|f p b|f|f|f p]; simpl in Hstep.
    + eapply pins_readPage; eauto.
    + eapply pins_unPinPage; eauto.
    + eapply pins_allocPage; eauto.
    + eapply pins_flushFile; eauto.
    + eapply pins_disposePage; eauto.
Qed.

(** ** Every call on a reachable pool is defined *)

Lemma allocBuf_loop_defined fuel : forall frame_count s,
  wf s -> allocBuf_loop fuel frame_count s <> Undef.
Proof.
  induction fuel as [|fuel IH]; intros frame_count s Hwf; [discriminate|].
  pose proof Hwf as (Hn & [Hlen Hpool] & Hhand & Hnamed).
  rewrite allocBuf_loop_unfold.
  destruct (frame_count <=? numBufs s); [|discriminate].
  destruct (lookup_lt_is_Some_2 (bufDescTable s) (N.to_nat (clockHand s)))
    as [d Hd]; [lia|].
  destruct (lookup_lt_is_Some_2 (bufPool s) (N.to_nat (clockHand s)))
    as [pg Hpg]; [lia|].
  rewrite Hd. destruct (valid d) eqn:Hv; simpl; [|discriminate].
  destruct (refbit d).
  - rewrite busy_visit_run by (simpl; lia). apply IH.
    apply (wf_next_hand (with_bufDescTable _ s)).
    eapply (wf_update_desc (clockHand s) (with_refbit false)); [| |exact Hwf|].
    + now intros [].
    + now intros [].
    + rewrite (update_desc_run _ _ _ _ Hd). reflexivity.
  - destruct (pinCnt d =? 0)%Z.
    + destruct (dirty d); [|discriminate].
      destruct (Hnamed _ _ Hd Hv) as [f Hf].
      now rewrite (dirty_victim_run _ _ _ _ Hd Hf Hpg).
    + rewrite busy_visit_run by lia. apply IH. now apply wf_next_hand.
Qed.

Lemma allocBuf_defined s :
  wf s -> numBufs s + 1 < 2 ^ 32 -> is_Some (final (allocBuf s)).
Proof.
  intros Hwf Hb.
  pose proof (allocBuf_loop_defined (N.to_nat (numBufs s) + 2) 0 s Hwf) as Hu.
  pose proof (allocBuf_loop_terminates (N.to_nat (numBufs s) + 2) 0 s Hb) as Ht.
  unfold allocBuf, bind, gets.
  destruct (allocBuf_loop _ _ _) as [[fr|] s1|e s1| |]; simpl; eauto.
  - now destruct Hu.
  - exfalso. apply Ht; [lia|lia|reflexivity].
Qed.

Lemma readPage_defined rr f p page s :
  wf s -> in_range s -> numBufs s + 1 < 2 ^ 32 ->
  is_Some (final (readPage rr f p page s)).
Proof.
  intros Hwf Hin Hb. pose proof (readPage_outcome rr f p page s Hwf Hin) as Hout.
  destruct (hashTable s !! (f, p)) as [frame|] eqn:Hidx.
  - destruct Hout as (d & pg & Hd & Hpg).
    rewrite (readPage_hit rr f p page s frame d pg Hidx Hd Hpg). simpl. eauto.
  - destruct (allocBuf_defined s Hwf Hb) as [s1 Hs1].
    destruct (allocBuf s) as [frame s2|e s2| |] eqn:Ha; try discriminate.
    + destruct (allocBuf_frame_in_range s frame s2 Hwf Ha) as (_ & d & pg & Hd & _ & Hpg).
      rewrite (readPage_miss_claimed rr f p page s frame s2 d pg Hidx Ha Hd Hpg).
      simpl. eauto.
    + subst e. rewrite (readPage_miss_exceeded rr f p page s s2 Hidx Ha). simpl. eauto.
Qed.

Lemma allocPage_defined ar f s :
  wf s -> numBufs s + 1 < 2 ^ 32 -> is_Some (final (allocPage ar f s)).
Proof.
  intros Hwf Hb. destruct (allocBuf_defined s Hwf Hb) as [s1 Hs1].
  destruct (allocBuf s) as [frame s2|e s2| |] eqn:Ha; try discriminate.
  - destruct (allocBuf_frame_in_range s frame s2 Hwf Ha) as (_ & d & pg & Hd & _ & Hpg).
    rewrite (allocPage_claimed ar f s frame s2 d pg Ha Hd Hpg). simpl. eauto.
  - unfold allocPage, bind at 1. rewrite Ha. simpl. eauto.
Qed.

Lemma unPinPage_defined f p b s :
  in_range s -> is_Some (final (unPinPage f p b s)).
Proof.
  intros Hin. unfold unPinPage, try_catch, bind, hashTable_lookup.
  destruct (hashTable s !! (f, p)) as [frame|] eqn:Hidx; simpl; [|eauto].
  destruct (lookup_lt_is_Some_2 (bufDescTable s) (N.to_nat frame)) as [d Hd]; [eauto|].
  rewrite (desc_at_run _ _ _ Hd).
  destruct (pinCnt d =? 0)%Z; simpl; [eauto|].
  rewrite (update_desc_run _ _ _ _ Hd).
  destruct b; [|simpl; eauto].
  erewrite update_desc_run by (simpl; eapply lookup_updated; eauto). simpl. eauto.
Qed.

Lemma flushFile_loop_defined f todo : forall id s,
  (N.to_nat id + todo <= length (bufDescTable s))%nat ->
  (N.to_nat id + todo <= length (bufPool s))%nat ->
  is_Some (final (flushFile_loop f todo id s)).
Proof.
  induction todo as [|todo IH]; intros id s Hlen Hpool; [simpl; eauto|].
  destruct (lookup_lt_is_Some_2 (bufDescTable s) (N.to_nat id)) as [d Hd]; [lia|].
  destruct (lookup_lt_is_Some_2 (bufPool s) (N.to_nat id)) as [pg Hpg]; [lia|].
  cbn [flushFile_loop]. unfold bind at 1.
  destruct (decide (violates f d)) as [Hv|Hv].
  - rewrite (flushFile_frame_violation f id s d Hd Hv). simpl. eauto.
  - destruct (decide (file d = Some f)) as [Hf|Hf].
    + rewrite (flushFile_frame_flush f id s d pg Hd Hf Hv Hpg).
      apply IH; unfold flushed; simpl; [rewrite length_insert|destruct (dirty d); simpl]; lia.
    + rewrite (flushFile_frame_other f id s d Hd Hf). apply IH; lia.
Qed.

Lemma flushFile_defined f s : sized s -> is_Some (final (flushFile f s)).
Proof.
  intros [Hlen Hpool]. unfold flushFile, bind, gets.
  apply flushFile_loop_defined; simpl; lia.
Qed.

Lemma disposePage_defined f p s :
  in_range s -> is_Some (final (disposePage f p s)).
Proof.
  intros Hin. destruct (hashTable s !! (f, p)) as [frame|] eqn:Hidx.
  - destruct (lookup_lt_is_Some_2 (bufDescTable s) (N.to_nat frame)) as [d Hd]; [eauto|].
    rewrite (disposePage_hit f p s frame d Hidx Hd). simpl. eauto.
  - rewrite (disposePage_miss f p s Hidx). simpl. eauto.
Qed.

(** X18.  On a reachable pool whose size plus one fits the 32-bit visit
    counter, every call of the public interface ends by returning or by
    throwing: none indexes a table out of range, divides by zero, calls an
    empty file handle or loops for ever. *)
Theorem reachable_calls_defined rr ar s op :
  reachable rr ar s ->
  numBufs s + 1 < 2 ^ 32 ->
  exists s', exec rr ar op s = Some s' /\ reachable rr ar s'.
Proof.
  intros Hr Hb. pose proof (reachable_wf_in_range rr ar s Hr) as [Hwf Hin].
  assert (Hdef : is_Some (exec rr ar op s)).
  { destruct op as [f p page|f p b|f|f|f p]; simpl.
    - now apply readPage_defined.
    - now apply unPinPage_defined.
    - now apply allocPage_defined.
    - apply flushFile_defined, Hwf.
    - now apply disposePage_defined. }
  destruct Hdef as [s' Hs']. exists s'. split; [exact Hs'|].
  eapply reachable_step; eauto.
Qed.

(** ** A flush that goes through *)

(** X19.  When no frame of the file is pinned or invalid, [flushFile]
    returns.  Every frame of the file has been reset and no frame carries
    the file any more; the other frames and all buffers are as they were.
    The Page Store has received one write per dirty frame of the file, in
    frame order, and nothing else.  The pages of the flushed frames are out
    of the index and every other index entry is as it was. *)
Theorem flushFile_flushes f s :
  sized s ->
  (forall i d, bufDescTable s !! i = Some d -> ~ violates f d) ->
  exists s', flushFile f s = Ok tt s' /\
    (forall j dj, bufDescTable s !! j = Some dj ->
                  bufDescTable s' !! j = Some (if decide (file dj = Some f) then clear dj else dj)) /\
    (forall j dj, bufDescTable s' !! j = Some dj -> file dj <> Some f) /\
    bufPool s' = bufPool s /\
    calls s' = (calls s ++ flush_writes f (bufDescTable s) (bufPool s))%list /\
    (forall j dj, bufDescTable s !! j = Some dj -> file dj = Some f ->
                  hashTable s' !! (f, pageNo dj) = None) /\
    (forall key,
       (forall j dj, bufDescTable s !! j = Some dj -> file dj = Some f ->
                     key <> (f, pageNo dj)) ->
       hashTable s' !! key = hashTable s !! key).
Proof.
  intros [Hlen Hpool] Hok.
  destruct (flushFile_loop_prefix f (N.to_nat (numBufs s)) 0 s)
    as (s' & Hrun & Hout & Hin & Hl & Hp & _); simpl; try lia.
  { intros j dj _. apply Hok. }
  destruct (flushFile_loop_store_index f (N.to_nat (numBufs s)) 0 s)
    as (s2 & Hrun2 & Hcalls & _ & Hgone & Hkeep); simpl; try lia.
  { intros j dj _. apply Hok. }
  rewrite Hrun in Hrun2. injection Hrun2 as <-.
  assert (Hall : forall j dj, bufDescTable s !! j = Some dj ->
                   bufDescTable s' !! j = Some (passed f dj)).
  { intros j dj Hj. apply Hin; [|exact Hj]. apply lookup_lt_Some in Hj. simpl. lia. }
  exists s'. split; [exact Hrun|]. split; [exact Hall|].
  split; [|split; [exact Hp|split; [|split]]].
  - intros j dj Hj Hf.
    destruct (lookup_lt_is_Some_2 (bufDescTable s) j) as [d0 Hd0];
      [apply lookup_lt_Some in Hj; lia|].
    rewrite (Hall _ _ Hd0) in Hj. injection Hj as <-. unfold passed in Hf.
    destruct (decide (file d0 = Some f)); [discriminate|contradiction].
  - rewrite Hcalls. change (N.to_nat 0) with 0%nat.
    rewrite !drop_0, !take_ge by lia. reflexivity.
  - intros j dj Hj. apply (Hgone j dj); [|exact Hj].
    apply lookup_lt_Some in Hj. simpl. lia.
  - intros key Hkey. apply Hkeep. intros j dj _. apply Hkey.
Qed.

(** A flush that returns has met no offending frame. *)
Lemma flushFile_ok_no_violation f s s' :
  sized s -> flushFile f s = Ok tt s' ->
  forall i d, bufDescTable s !! i = Some d -> ~ violates f d.
Proof.
  intros [Hlen Hpool] Hrun i di Hi Hvi.
  destruct (list_find (violates f) (bufDescTable s)) as [[k d]|] eqn:Hfind.
  2:{ apply list_find_None in Hfind. rewrite Forall_forall in Hfind.
      apply (Hfind di); [|exact Hvi]. eapply list_elem_of_lookup_2; eauto. }
  apply list_find_Some in Hfind as (Hk & Hvk & Hfirst).
  pose proof (lookup_lt_Some _ _ _ Hk) as Hklt.
  destruct (flushFile_loop_prefix f k 0 s) as (s1 & Hrun1 & Hout & _); simpl; try lia.
  { intros j dj Hj Hdj. apply (Hfirst j dj Hdj). simpl in Hj. lia. }
  unfold flushFile, bind, gets in Hrun.
  replace (N.to_nat (numBufs s)) with (k + S (N.to_nat (numBufs s) - S k))%nat in Hrun by lia.
  rewrite flushFile_loop_app in Hrun. unfold bind at 1 in Hrun. rewrite Hrun1 in Hrun.
  cbn [flushFile_loop] in Hrun. unfold bind at 1 in Hrun. rewrite N.add_0_l in Hrun.
  rewrite (flushFile_frame_violation f (N.of_nat k) s1 d) in Hrun; [discriminate| |exact Hvk].
  rewrite Nat2N.id. rewrite Hout by (simpl; lia). exact Hk.
Qed.

Lemma flushFile_nothing_to_flush f s :
  sized s ->
  (forall i d, bufDescTable s !! i = Some d -> file d <> Some f) ->
  flushFile f s = Ok tt s.
Proof.
  intros [Hlen Hpool] Hnone.
  destruct (flushFile_loop_prefix f (N.to_nat (numBufs s)) 0 s)
    as (s1 & Hrun & _ & _ & _ & _ & Hsame); simpl; try lia.
  { intros j dj _ Hj [Hf _]. exact (Hnone _ _ Hj Hf). }
  unfold flushFile, bind, gets. rewrite Hrun. f_equal. apply Hsame.
  intros j dj _. apply Hnone.
Qed.

(** X20.  [flushFile] on a file none of whose pages is in a frame changes
    nothing; so a second [flushFile] right after one that returned changes
    nothing. *)
Theorem flushFile_again f s :
  wf s ->
  ((forall i d, bufDescTable s !! i = Some d -> file d <> Some f) ->
   flushFile f s = Ok tt s) /\
  (forall s', flushFile f s = Ok tt s' -> flushFile f s' = Ok tt s').
Proof.
  intros Hwf. pose proof Hwf as (_ & Hsized & _).
  split; [now apply flushFile_nothing_to_flush|].
  intros s' Hrun.
  assert (Hwf' : wf s') by (apply (wf_flushFile f s Hwf); now rewrite Hrun).
  apply flushFile_nothing_to_flush; [apply Hwf'|].
  pose proof (flushFile_ok_no_violation f s s' Hsized Hrun) as Hok.
  destruct Hsized as [Hlen Hpool].
  destruct (flushFile_loop_prefix f (N.to_nat (numBufs s)) 0 s)
    as (s1 & Hrun1 & _ & Hin & Hl & _); simpl; try lia.
  { intros j dj _. apply Hok. }
  unfold flushFile, bind, gets in Hrun. rewrite Hrun1 in Hrun. injection Hrun as <-.
  intros i d Hd Hf.
  destruct (lookup_lt_is_Some_2 (bufDescTable s) i) as [di Hdi].
  { apply lookup_lt_Some in Hd. lia. }
  rewrite (Hin i di) in Hd; [|apply lookup_lt_Some in Hdi; simpl; lia|exact Hdi].
  injection Hd as <-. unfold passed in Hf.
  destruct (decide (file di = Some f)); [discriminate|contradiction].
Qed.

(** ** printSelf *)

Lemma printSelf_loop_run todo : forall i s validFrames out,
  (N.to_nat i + todo <= length (bufDescTable s))%nat ->
  (validFrames +
     Z.of_nat (length (List.filter valid (take todo (drop (N.to_nat i) (bufDescTable s))))) < 2 ^ 31)%Z ->
  printSelf_loop todo i validFrames out s =
    Ok ((validFrames +
           Z.of_nat (length (List.filter valid (take todo (drop (N.to_nat i) (bufDescTable s))))))%Z,
        (out ++ frame_lines i (take todo (drop (N.to_nat i) (bufDescTable s))))%list) s.
Proof.
  induction todo as [|todo IH]; intros i s validFrames out Hlen Hcount.
  - simpl. unfold ret. now rewrite Z.add_0_r, app_nil_r.
  - destruct (lookup_lt_is_Some_2 (bufDescTable s) (N.to_nat i)) as [d Hd]; [lia|].
    assert (Hnext : N.to_nat (i + 1) = S (N.to_nat i)) by lia.
    cbn [printSelf_loop]. unfold bind at 1. rewrite (desc_at_run _ _ _ Hd).
    rewrite (drop_S _ _ _ Hd) in Hcount |- *. cbn [take List.filter frame_lines] in Hcount |- *.
    destruct (valid d) eqn:Hv.
    + cbn [length] in Hcount |- *. rewrite Nat2Z.inj_succ in Hcount |- *.
      destruct (Z.eqb_spec validFrames (2 ^ 31 - 1)) as [->|_]; [lia|].
      rewrite IH by (rewrite ?Hnext; lia). rewrite Hnext, <- app_assoc.
      do 2 f_equal. lia.
    + rewrite IH by (rewrite ?Hnext; lia). now rewrite Hnext, <- app_assoc.
Qed.

(** X21.  [printSelf] writes one line per frame, in frame order, then the
    number of frames that are valid, and leaves the pool as it was (as long
    as that number fits an [int]). *)
Theorem printSelf_dump s :
  length (bufDescTable s) = N.to_nat (numBufs s) ->
  (Z.of_nat (length (List.filter valid (bufDescTable s))) < 2 ^ 31)%Z ->
  printSelf s =
    Ok (frame_lines 0 (bufDescTable s) ++
          [OutStr "Total Number of Valid Frames:";
           OutInt (Z.of_nat (length (List.filter valid (bufDescTable s))));
           OutStr newline])%list s.
Proof.
  intros Hlen Hcount. unfold printSelf, bind, gets.
  rewrite printSelf_loop_run; change (N.to_nat 0) with 0%nat;
    rewrite ?drop_0, ?take_ge by lia; [reflexivity|lia|lia].
Qed.

(** ** Second chance *)







(** ** The further properties at concrete pools *)

Lemma pool1_dirty_reachable :
  reachable blank_readPage counting_allocatePage pool1_dirty.
Proof.
  apply (exec_all_reachable _ _ [UnPinPageOp "f" 1 true] pool1_pinned).
  - exact pool1_pinned_reachable.
  - vm_compute. reflexivity.
Defined.

(** X1 for a pool of three frames: the index gets 3 buckets. *)
Lemma BufMgr_BufMgr_spec_witness :
  0 < 3 < 2 ^ 32 /\
  BufMgr_BufMgr 3 = Some (BufMgr_new 3) /\
  HASHTABLE_SZ (int_of_uint32 3) = Some 3%Z /\
  wf (BufMgr_new 3) /\ index_consistent (BufMgr_new 3) /\ clockHand (BufMgr_new 3) = 2.
Proof.
  assert (H : 0 < 3 < 2 ^ 32) by (split; reflexivity).
  assert (Hc : BufMgr_BufMgr 3 = Some (BufMgr_new 3)) by (vm_compute; reflexivity).
  split; [exact H|]. split; [exact Hc|]. split; [vm_compute; reflexivity|].
  destruct (BufMgr_BufMgr_spec 3 _ H Hc) as (_ & _ & Hwf & Hi & _ & Hh & _).
  split; [exact Hwf|]. split; [exact Hi|exact Hh].
Defined.

(** X2 for a pool of three frames: frame 2 is handed out first. *)
Lemma allocBuf_on_new_pool_witness :
  0 < 3 < 2 ^ 32 /\
  BufMgr_BufMgr 3 = Some (BufMgr_new 3) /\
  allocBuf (BufMgr_new 3) = Ok 2 (BufMgr_new 3).
Proof.
  assert (H : 0 < 3 < 2 ^ 32) by (split; reflexivity).
  assert (Hc : BufMgr_BufMgr 3 = Some (BufMgr_new 3)) by (vm_compute; reflexivity).
  split; [exact H|]. split; [exact Hc|exact (allocBuf_on_new_pool 3 _ H Hc)].
Defined.

(** X4 on the two-frame pool, hand on frame 0, and on the empty pool. *)
Lemma advanceClock_next_witness :
  clockHand pool2_second_chance < numBufs pool2_second_chance /\
  numBufs pool2_second_chance < 2 ^ 32 /\
  advanceClock pool2_second_chance = Ok tt (with_clockHand 1 pool2_second_chance) /\
  numBufs (BufMgr_new 0) = 0 /\
  advanceClock (BufMgr_new 0) = Undef.
Proof.
  assert (H1 : clockHand pool2_second_chance < numBufs pool2_second_chance) by reflexivity.
  assert (H2 : numBufs pool2_second_chance < 2 ^ 32) by reflexivity.
  split; [exact H1|]. split; [exact H2|].
  split; [exact (proj1 (advanceClock_next pool2_second_chance) H1 H2)|].
  split; [reflexivity|exact (proj2 (advanceClock_next (BufMgr_new 0)) eq_refl)].
Defined.

(** X5 on the two-frame pool, with fuel 10. *)
Lemma allocBuf_sweep_ends_witness :
  numBufs pool2_second_chance + 1 < 2 ^ 32 /\
  (N.to_nat (numBufs pool2_second_chance) + 2 <= 10)%nat /\
  allocBuf pool2_second_chance <> Timeout /\
  allocBuf_loop 10 0 pool2_second_chance = allocBuf_loop 4 0 pool2_second_chance.
Proof.
  assert (H1 : numBufs pool2_second_chance + 1 < 2 ^ 32) by reflexivity.
  assert (H2 : (N.to_nat (numBufs pool2_second_chance) + 2 <= 10)%nat) by (simpl; lia).
  split; [exact H1|]. split; [exact H2|].
  destruct (allocBuf_sweep_ends pool2_second_chance 10 H1 H2) as (Hend & Heq & _).
  split; [exact Hend|exact Heq].
Defined.

(** X6 on the one-frame pool whose frame is pinned. *)
Lemma allocBuf_failure_evicts_nothing_witness :
  allocBuf pool1_pinned =
    Raise BufferExceededException
      (with_bufDescTable [resident "f" 1 0 1 false false] pool1_pinned) /\
  hashTable (with_bufDescTable [resident "f" 1 0 1 false false] pool1_pinned) =
    hashTable pool1_pinned.
Proof.
  assert (Ha : allocBuf pool1_pinned =
                 Raise BufferExceededException
                   (with_bufDescTable [resident "f" 1 0 1 false false] pool1_pinned))
    by (vm_compute; reflexivity).
  split; [exact Ha|].
  exact (proj1 (proj2 (allocBuf_failure_evicts_nothing _ _ _ Ha))).
Defined.

Lemma pool1_pinned_all_pinned i d :
  bufDescTable pool1_pinned !! i = Some d -> valid d = true /\ pinCnt d <> 0%Z.
Proof.
  destruct i as [|i]; simpl; intros H; [|discriminate].
  injection H as <-. split; [reflexivity|discriminate].
Defined.

(** X7 on the one-frame pool whose frame is pinned. *)
Lemma allocBuf_pool_full_witness :
  wf pool1_pinned /\ numBufs pool1_pinned + 1 < 2 ^ 32 /\
  (forall i d, bufDescTable pool1_pinned !! i = Some d ->
               valid d = true /\ pinCnt d <> 0%Z) /\
  exists s', allocBuf pool1_pinned = Raise BufferExceededException s' /\
             hashTable s' = hashTable pool1_pinned.
Proof.
  assert (Hwf : wf pool1_pinned) by exact (reachable_wf _ _ _ pool1_pinned_reachable).
  assert (Hb : numBufs pool1_pinned + 1 < 2 ^ 32) by reflexivity.
  split; [exact Hwf|]. split; [exact Hb|]. split; [exact pool1_pinned_all_pinned|].
  destruct (allocBuf_pool_full pool1_pinned Hwf Hb pool1_pinned_all_pinned)
    as (s' & Hrun & Hh & _).
  exists s'. split; [exact Hrun|exact Hh].
Defined.

Lemma pool2_pinned_then_unreferenced_reachable :
  reachable blank_readPage counting_allocatePage pool2_pinned_then_unreferenced.
Proof.
  apply (exec_all_reachable _ _ pool2_pinned_then_unreferenced_ops (BufMgr_new 2)).
  - apply reachable_new. split; reflexivity.
  - vm_compute. reflexivity.
Defined.

(** X8 on the two-frame pool whose hand is on a pinned frame and whose
    other frame is valid, not pinned and not referenced: the sweep passes
    frame 0 and hands out frame 1. *)
Lemma allocBuf_succeeds_witness :
  wf pool2_pinned_then_unreferenced /\
  numBufs pool2_pinned_then_unreferenced + 1 < 2 ^ 32 /\
  clockHand pool2_pinned_then_unreferenced = 0 /\
  bufDescTable pool2_pinned_then_unreferenced !! N.to_nat 0 =
    Some (resident "f" 2 0 1 false true) /\
  bufDescTable pool2_pinned_then_unreferenced !! N.to_nat 1 =
    Some (resident "f" 1 1 0 false false) /\
  exists s', allocBuf pool2_pinned_then_unreferenced = Ok 1 s'.
Proof.
  assert (Hwf : wf pool2_pinned_then_unreferenced)
    by exact (reachable_wf _ _ _ pool2_pinned_then_unreferenced_reachable).
  assert (Hb : numBufs pool2_pinned_then_unreferenced + 1 < 2 ^ 32) by reflexivity.
  assert (Hd : bufDescTable pool2_pinned_then_unreferenced !! N.to_nat 1 =
               Some (resident "f" 1 1 0 false false)) by reflexivity.
  split; [exact Hwf|]. split; [exact Hb|]. split; [reflexivity|].
  split; [reflexivity|]. split; [exact Hd|].
  destruct (allocBuf_succeeds pool2_pinned_then_unreferenced 1 _ Hwf Hb Hd
              (or_intror (conj eq_refl eq_refl)))
    as (frame & s' & d' & Hrun & Hd' & Hpin).
  exists s'.
  assert (Hlt : (N.to_nat frame < 2)%nat) by exact (lookup_lt_Some _ _ _ Hd').
  assert (Hcase : frame = 0 \/ frame = 1) by lia.
  destruct Hcase as [-> | ->]; [|exact Hrun].
  injection Hd' as <-. discriminate (Hpin eq_refl).
Defined.

(** X9 on the one-frame pool whose page is dirty and unpinned. *)
Lemma allocBuf_dirty_victim_witness :
  numbered pool1_dirty /\
  allocBuf pool1_dirty = Ok 0 pool1_written_back /\
  bufDescTable pool1_dirty !! N.to_nat 0 = Some (resident "f" 1 0 0 true true) /\
  exists f pg, calls pool1_written_back = (calls pool1_dirty ++ [WritePage f pg])%list.
Proof.
  assert (Hn : numbered pool1_dirty)
    by exact (proj1 (reachable_wf _ _ _ pool1_dirty_reachable)).
  assert (Ha : allocBuf pool1_dirty = Ok 0 pool1_written_back) by (vm_compute; reflexivity).
  assert (Hd : bufDescTable pool1_dirty !! N.to_nat 0 = Some (resident "f" 1 0 0 true true))
    by reflexivity.
  split; [exact Hn|]. split; [exact Ha|]. split; [exact Hd|].
  destruct (allocBuf_dirty_victim _ _ _ _ Hn Ha Hd eq_refl eq_refl)
    as (f & pg & _ & _ & Hcalls & _).
  exists f, pg. exact Hcalls.
Defined.

(** X10 on the one-frame pool holding page 1. *)
Lemma readPage_hit_effect_witness :
  hashTable pool1_pinned !! ("f", 1) = Some 0 /\
  bufDescTable pool1_pinned !! N.to_nat 0 = Some (resident "f" 1 0 1 false true) /\
  bufPool pool1_pinned !! N.to_nat 0 = Some (mkPage 1 "") /\
  exists s', readPage blank_readPage "f" 1 None pool1_pinned = Ok (Some 0) s' /\
             calls s' = calls pool1_pinned.
Proof.
  assert (Hidx : hashTable pool1_pinned !! ("f", 1) = Some 0) by (vm_compute; reflexivity).
  assert (Hd : bufDescTable pool1_pinned !! N.to_nat 0 = Some (resident "f" 1 0 1 false true))
    by reflexivity.
  assert (Hpg : bufPool pool1_pinned !! N.to_nat 0 = Some (mkPage 1 "")) by reflexivity.
  split; [exact Hidx|]. split; [exact Hd|]. split; [exact Hpg|].
  destruct (readPage_hit_effect blank_readPage "f" 1 None pool1_pinned 0 _ _ Hidx Hd Hpg)
    as (s' & Hrun & _ & _ & _ & _ & _ & Hcalls & _).
  exists s'. split; [exact Hrun|exact Hcalls].
Defined.

Lemma new_pool1_wf : wf (BufMgr_new 1).
Proof. apply wf_BufMgr_new. split; reflexivity. Defined.

Lemma new_pool1_miss : hashTable (BufMgr_new 1) !! ("f", 1) = None.
Proof. vm_compute. reflexivity. Defined.

Lemma new_pool1_allocBuf : allocBuf (BufMgr_new 1) = Ok 0 (BufMgr_new 1).
Proof. vm_compute. reflexivity. Defined.


(** X12 on a new pool of one frame. *)
Lemma readPage_twice_witness :
  wf (BufMgr_new 1) /\ hashTable (BufMgr_new 1) !! ("f", 1) = None /\
  allocBuf (BufMgr_new 1) = Ok 0 (BufMgr_new 1) /\
  exists s' s'',
    readPage blank_readPage "f" 1 None (BufMgr_new 1) = Ok (Some 0) s' /\
    readPage blank_readPage "f" 1 None s' = Ok (Some 0) s'' /\
    bufDescTable s'' !! N.to_nat 0 = Some (resident "f" 1 0 2 false true).
Proof.
  split; [exact new_pool1_wf|]. split; [exact new_pool1_miss|].
  split; [exact new_pool1_allocBuf|].
  destruct (readPage_twice blank_readPage "f" 1 None None (BufMgr_new 1) 0 _
              new_pool1_wf new_pool1_miss new_pool1_allocBuf)
    as (s' & s'' & Hrun & Hrun' & Hd & _).
  exists s', s''. split; [exact Hrun|]. split; [exact Hrun'|exact Hd].
Defined.

(** X13 on the one-frame pool holding page 1, pinned once. *)
Lemma readPage_unPinPage_witness :
  hashTable pool1_pinned !! ("f", 1) = Some 0 /\
  bufDescTable pool1_pinned !! N.to_nat 0 = Some (resident "f" 1 0 1 false true) /\
  bufPool pool1_pinned !! N.to_nat 0 = Some (mkPage 1 "") /\
  (0 <= pinCnt (resident "f" 1 0 1 false true))%Z /\
  exists s', readPage blank_readPage "f" 1 None pool1_pinned = Ok (Some 0) s' /\
             exists s'', unPinPage "f" 1 false s' = Ok tt s'' /\
                         bufDescTable s'' = bufDescTable pool1_pinned.
Proof.
  assert (Hidx : hashTable pool1_pinned !! ("f", 1) = Some 0) by (vm_compute; reflexivity).
  assert (Hd : bufDescTable pool1_pinned !! N.to_nat 0 = Some (resident "f" 1 0 1 false true))
    by reflexivity.
  assert (Hpg : bufPool pool1_pinned !! N.to_nat 0 = Some (mkPage 1 "")) by reflexivity.
  assert (Hpin : (0 <= pinCnt (resident "f" 1 0 1 false true))%Z) by discriminate.
  split; [exact Hidx|]. split; [exact Hd|]. split; [exact Hpg|]. split; [exact Hpin|].
  destruct (readPage_unPinPage blank_readPage "f" 1 None false pool1_pinned 0 _ _
              Hidx Hd Hpg Hpin) as (s' & Hrun & Hunpin).
  exists s'. split; [exact Hrun|]. eexists. split; [exact Hunpin|reflexivity].
Defined.

(** X14 on a new pool of one frame. *)
Lemma allocPage_installs_witness :
  wf (BufMgr_new 1) /\ allocBuf (BufMgr_new 1) = Ok 0 (BufMgr_new 1) /\
  exists p s', allocPage counting_allocatePage "f" (BufMgr_new 1) = Ok (p, Some 0) s' /\
               hashTable s' !! ("f", p) = Some 0 /\
               accesses (bufStats s') = 1%Z.
Proof.
  split; [exact new_pool1_wf|]. split; [exact new_pool1_allocBuf|].
  destruct (allocPage_installs counting_allocatePage "f" (BufMgr_new 1) 0 _
              new_pool1_wf new_pool1_allocBuf)
    as (p & s' & Hrun & _ & Hidx & _ & _ & _ & Hacc & _).
  exists p, s'. split; [exact Hrun|]. split; [exact Hidx|exact Hacc].
Defined.

(** X15 on the one-frame pool whose frame is pinned. *)
Lemma allocPage_exceeded_witness :
  allocBuf pool1_pinned =
    Raise BufferExceededException
      (with_bufDescTable [resident "f" 1 0 1 false false] pool1_pinned) /\
  allocPage counting_allocatePage "f" pool1_pinned =
    Raise BufferExceededException
      (with_bufDescTable [resident "f" 1 0 1 false false] pool1_pinned).
Proof.
  assert (Ha : allocBuf pool1_pinned =
                 Raise BufferExceededException
                   (with_bufDescTable [resident "f" 1 0 1 false false] pool1_pinned))
    by (vm_compute; reflexivity).
  split; [exact Ha|].
  exact (proj1 (allocPage_exceeded counting_allocatePage "f" _ _ _ Ha)).
Defined.

(** X16 on the two-frame pool. *)
Lemma reachable_pool_shape_witness :
  reachable blank_readPage counting_allocatePage pool2_second_chance /\
  sized pool2_second_chance /\
  forall key frame, hashTable pool2_second_chance !! key = Some frame ->
                    frame < numBufs pool2_second_chance.
Proof.
  split; [exact pool2_second_chance_reachable|].
  destruct (reachable_pool_shape _ _ _ pool2_second_chance_reachable)
    as (_ & Hs & _ & _ & Hin).
  split; [exact Hs|exact Hin].
Defined.

(** X17 on the two-frame pool. *)
Lemma reachable_pins_nonneg_witness :
  reachable blank_readPage counting_allocatePage pool2_second_chance /\
  bufDescTable pool2_second_chance !! 1%nat = Some (resident "f" 1 1 0 false true) /\
  (0 <= pinCnt (resident "f" 1 1 0 false true))%Z.
Proof.
  split; [exact pool2_second_chance_reachable|]. split; [reflexivity|].
  exact (reachable_pins_nonneg _ _ _ 1%nat _ pool2_second_chance_reachable eq_refl).
Defined.

(** X18 on the two-frame pool, for a flush of "f". *)
Lemma reachable_calls_defined_witness :
  reachable blank_readPage counting_allocatePage pool2_second_chance /\
  numBufs pool2_second_chance + 1 < 2 ^ 32 /\
  exists s', exec blank_readPage counting_allocatePage (FlushFileOp "f")
               pool2_second_chance = Some s'.
Proof.
  assert (Hb : numBufs pool2_second_chance + 1 < 2 ^ 32) by reflexivity.
  split; [exact pool2_second_chance_reachable|]. split; [exact Hb|].
  destruct (reachable_calls_defined _ _ _ (FlushFileOp "f")
              pool2_second_chance_reachable Hb) as (s' & Hrun & _).
  exists s'. exact Hrun.
Defined.

Lemma pool1_dirty_sized : sized pool1_dirty.
Proof. split; reflexivity. Defined.

Lemma pool1_dirty_no_violation i d :
  bufDescTable pool1_dirty !! i = Some d -> ~ violates "f" d.
Proof.
  destruct i as [|i]; simpl; intros H; [|discriminate].
  injection H as <-. intros [_ [Hp|Hv]]; [now apply Hp|discriminate Hv].
Defined.

(** X19 on the one-frame pool whose page is dirty and unpinned. *)
Lemma flushFile_flushes_witness :
  sized pool1_dirty /\
  (forall i d, bufDescTable pool1_dirty !! i = Some d -> ~ violates "f" d) /\
  exists s', flushFile "f" pool1_dirty = Ok tt s' /\
             calls s' = [ReadPage "f" 1; WritePage "f" (mkPage 1 "")].
Proof.
  split; [exact pool1_dirty_sized|]. split; [exact pool1_dirty_no_violation|].
  destruct (flushFile_flushes "f" pool1_dirty pool1_dirty_sized pool1_dirty_no_violation)
    as (s' & Hrun & _ & _ & _ & Hcalls & _).
  exists s'. split; [exact Hrun|exact Hcalls].
Defined.

(** X20 on the one-frame pool whose page is dirty and unpinned. *)
Lemma flushFile_again_witness :
  wf pool1_dirty /\
  forall s', flushFile "f" pool1_dirty = Ok tt s' -> flushFile "f" s' = Ok tt s'.
Proof.
  assert (Hwf : wf pool1_dirty) by exact (reachable_wf _ _ _ pool1_dirty_reachable).
  split; [exact Hwf|exact (proj2 (flushFile_again "f" pool1_dirty Hwf))].
Defined.

(** X21 on the two-frame pool: both frames are valid. *)
Lemma printSelf_dump_witness :
  length (bufDescTable pool2_second_chance) = N.to_nat (numBufs pool2_second_chance) /\
  (Z.of_nat (length (List.filter valid (bufDescTable pool2_second_chance))) < 2 ^ 31)%Z /\
  printSelf pool2_second_chance =
    Ok [OutStr "FrameNo:"; OutFrame 0; OutStr " "; OutDesc (resident "f" 2 0 1 false true);
        OutStr "FrameNo:"; OutFrame 1; OutStr " "; OutDesc (resident "f" 1 1 0 false true);
        OutStr "Total Number of Valid Frames:"; OutInt 2; OutStr newline]
       pool2_second_chance.
Proof.
  assert (H1 : length (bufDescTable pool2_second_chance) =
               N.to_nat (numBufs pool2_second_chance)) by reflexivity.
  assert (H2 : (Z.of_nat (length (List.filter valid (bufDescTable pool2_second_chance)))
                < 2 ^ 31)%Z) by reflexivity.
  split; [exact H1|]. split; [exact H2|].
  exact (printSelf_dump pool2_second_chance H1 H2).
Defined.


